(** * Toma Ai: the streaming conversation core

    A shallow embedding of the parts of [src/services/gemini.ts] and
    [src/App.tsx] that build request payloads, consume a streamed answer,
    retry or poll one-shot calls and ingest attachments, together with the
    properties of these functions.

    Conventions.
    - A JavaScript string is a [string] holding its UTF-8 writing; the
      patterns the code looks for (a comma, a dot, ASCII letters and
      digits) are ASCII, and the white space of [trim] is matched in its
      UTF-8 writing, so the functions below read the same on UTF-8 bytes
      as on UTF-16 code units.
    - [undefined] and [null] are [None]; an optional field is an [option].
    - A call that may throw returns [Err e] or [Ok v].
    - An asynchronous call to the remote service is a function taking the
      number of the call made so far (the world's answer to that call);
      the order of the calls and of the timer delays is kept in a log. *)

From Stdlib Require Import String Ascii List ZArith Lia Bool Arith Sorted.
From Stdlib Require Import DecimalString DecimalZ.
From Equations Require Import Equations.
Import ListNotations.

Set Implicit Arguments.

Open Scope list_scope.
Open Scope string_scope.

(** ** JavaScript primitives used by the sources *)

Module JS.

(** The outcome of an expression that may throw. *)
Inductive result (E A : Type) : Type :=
| Ok  : A -> result E A
| Err : E -> result E A.
Arguments Ok {E A} _.
Arguments Err {E A} _.

(** Truthiness of a string value: only the empty string is falsy. *)
Definition truthy (s : string) : bool :=
  match s with
  | EmptyString => false
  | String _ _ => true
  end.

(** Truthiness of a possibly undefined string. *)
Definition truthy_opt (o : option string) : bool :=
  match o with
  | Some s => truthy s
  | None => false
  end.

(** [a || b] on strings where [a] may be undefined. *)
Definition or_else (o : option string) (d : string) : string :=
  match o with
  | Some s => if truthy s then s else d
  | None => d
  end.

(** [s.split(sep)] for a one-character separator. The result is never
    empty: [''.split(',')] is [['']]. *)
Fixpoint split (sep : ascii) (s : string) : list string :=
  match s with
  | EmptyString => [EmptyString]
  | String c s' =>
      if Ascii.eqb c sep then EmptyString :: split sep s'
      else match split sep s' with
           | [] => [String c EmptyString]
           | h :: t => String c h :: t
           end
  end.

(** [arr[i]]: undefined outside the array. *)
Definition item {A : Type} (l : list A) (i : nat) : option A :=
  nth_error l i.

(** [s.includes(sub)]. *)
Fixpoint includes (s sub : string) : bool :=
  String.prefix sub s ||
  match s with
  | EmptyString => false
  | String _ s' => includes s' sub
  end.

(** [s.startsWith(p)]. *)
Definition startsWith (s p : string) : bool := String.prefix p s.

(** [s.endsWith(suf)]. *)
Fixpoint endsWith (s suf : string) : bool :=
  String.eqb s suf ||
  match s with
  | EmptyString => false
  | String _ s' => endsWith s' suf
  end.

(** ASCII case folding, as a regular expression with the [i] flag and
    no [u] flag compares ASCII letters. *)
Definition lower_ascii (c : ascii) : ascii :=
  let n := nat_of_ascii c in
  if Nat.leb 65 n && Nat.leb n 90 then ascii_of_nat (n + 32) else c.

Fixpoint toLowerCase (s : string) : string :=
  match s with
  | EmptyString => EmptyString
  | String c s' => String (lower_ascii c) (toLowerCase s')
  end.

(** The white space that [trim] removes is the WhiteSpace and the
    LineTerminator of ECMAScript, here in their UTF-8 writing:
    - one byte: U+0009 to U+000D and U+0020;
    - two bytes: U+00A0 (C2 A0);
    - three bytes: U+1680 (E1 9A 80), U+2000 to U+200A (E2 80 80 to
      E2 80 8A), U+2028 and U+2029 (E2 80 A8, E2 80 A9), U+202F
      (E2 80 AF), U+205F (E2 81 9F), U+3000 (E3 80 80) and U+FEFF
      (EF BB BF). *)
Definition asciiSpace (a : ascii) : bool :=
  let n := nat_of_ascii a in
  (Nat.leb 9 n && Nat.leb n 13) || Nat.eqb n 32.

Definition space2 (a b : ascii) : bool :=
  Nat.eqb (nat_of_ascii a) 194 && Nat.eqb (nat_of_ascii b) 160.

Definition space3 (a b c : ascii) : bool :=
  let x := nat_of_ascii a in
  let y := nat_of_ascii b in
  let z := nat_of_ascii c in
  (Nat.eqb x 225 && Nat.eqb y 154 && Nat.eqb z 128)
  || (Nat.eqb x 226 && Nat.eqb y 128
      && ((Nat.leb 128 z && Nat.leb z 138)
          || Nat.eqb z 168 || Nat.eqb z 169 || Nat.eqb z 175))
  || (Nat.eqb x 226 && Nat.eqb y 129 && Nat.eqb z 159)
  || (Nat.eqb x 227 && Nat.eqb y 128 && Nat.eqb z 128)
  || (Nat.eqb x 239 && Nat.eqb y 187 && Nat.eqb z 191).

(** The number of bytes of the white space character that a text starts
    with, 0 when it starts with none. *)
Definition spaceAt (s : string) : nat :=
  match s with
  | String a s1 =>
      if asciiSpace a then 1
      else
        match s1 with
        | String b s2 =>
            if space2 a b then 2
            else
              match s2 with
              | String c _ => if space3 a b c then 3 else 0
              | EmptyString => 0
              end
        | EmptyString => 0
        end
  | EmptyString => 0
  end.

(** [skip] is the number of bytes, of the white space character found,
    that are still to be passed. *)
Fixpoint trimStartFrom (skip : nat) (s : string) : string :=
  match s with
  | EmptyString => EmptyString
  | String c s' =>
      match skip with
      | S k => trimStartFrom k s'
      | O =>
          match spaceAt s with
          | O => s
          | S k => trimStartFrom k s'
          end
      end
  end.

Definition trimStart (s : string) : string := trimStartFrom 0 s.

(** A text made of white space characters only. *)
Fixpoint blankFrom (skip : nat) (s : string) : bool :=
  match s with
  | EmptyString => Nat.eqb skip 0
  | String c s' =>
      match skip with
      | S k => blankFrom k s'
      | O =>
          match spaceAt s with
          | O => false
          | S k => blankFrom k s'
          end
      end
  end.

Definition isBlank (s : string) : bool := blankFrom 0 s.

(** The text without the white space characters that end it: what comes
    before the point from which only white space is left. *)
Fixpoint trimEnd (s : string) : string :=
  match s with
  | EmptyString => EmptyString
  | String c s' => if isBlank s then EmptyString else String c (trimEnd s')
  end.

Definition trim (s : string) : string := trimEnd (trimStart s).

(** [n.toString()] for an integral number: decimal digits, with a
    leading minus sign for a negative number. *)
Definition toString (n : Z) : string :=
  NilEmpty.string_of_int (Z.to_int n).

(** A value interpolated in a template literal: [undefined] prints as
    the word. *)
Definition interpolate (o : option string) : string :=
  match o with
  | Some s => s
  | None => "undefined"
  end.

End JS.

Import JS.

(** ** [src/types.ts] and the [Attachment] interface of [src/App.tsx] *)

Module Types.

Inductive Role : Type := USER | MODEL.

Definition Role_value (r : Role) : string :=
  match r with
  | USER => "user"
  | MODEL => "model"
  end.

Inductive ModelType : Type := FLASH | PRO | FLASH_LITE | VEO.

Definition ModelType_value (m : ModelType) : string :=
  match m with
  | FLASH => "gemini-2.5-flash"
  | PRO => "gemini-3-pro-preview"
  | FLASH_LITE => "gemini-flash-lite-latest"
  | VEO => "veo-3.1-fast-generate-preview"
  end.

Definition ModelType_eqb (a b : ModelType) : bool :=
  String.eqb (ModelType_value a) (ModelType_value b).

(** The [type] field of an attachment. *)
Inductive AttachmentType : Type :=
| T_image | T_video | T_pdf | T_text | T_zip | T_code.

Record Attachment : Type := mkAttachment {
  att_name : string;
  att_data : string;        (* Base64 or Text Content *)
  att_mimeType : string;
  att_type : AttachmentType;
  att_size : option Z
}.

Record Message : Type := mkMessage {
  id : string;
  role : Role;
  content : string;
  timestamp : Z;
  isError : option bool;
  attachments : option (list Attachment)
}.

End Types.

Import Types.

(** ** [src/services/gemini.ts] *)

Module Gemini.

(** What the code reads of a thrown value. *)
Record JsError : Type := mkError {
  err_status : option string;
  err_code : option Z;
  err_message : option string
}.

(** [process.env]. *)
Record Env : Type := mkEnv { API_KEY : option string }.

(** Helper: Check for Resource Exhausted (429). *)
Definition is429 (err : JsError) : bool :=
  match err_status err with
  | Some s => String.eqb s "RESOURCE_EXHAUSTED"
  | None => false
  end
  || match err_code err with
     | Some c => Z.eqb c 429
     | None => false
     end
  || match err_message err with
     | Some m => includes m "429"
     | None => false
     end
  || match err_message err with
     | Some m => includes m "quota"
     | None => false
     end.

(** *** Requests and responses of the SDK *)

Record Blob : Type := mkBlob {
  blob_data : option string;
  blob_mimeType : option string
}.

Record Part : Type := mkPart {
  part_inlineData : option Blob;
  part_text : option string
}.

Record Content : Type := mkContent { parts : option (list Part) }.

Record Candidate : Type := mkCandidate { cand_content : option Content }.

Record GenerateContentResponse : Type := mkResponse {
  candidates : option (list Candidate);
  text : option string
}.

(** What [chat.sendMessageStream] is given as [message]. *)
Inductive MessagePayload : Type :=
| PayloadString : string -> MessagePayload
| PayloadParts : list Part -> MessagePayload.

(** An asynchronous iterable, read once from the start: the chunks it
    yields, then either its end or a thrown value. *)
Record ResponseStream : Type := mkStream {
  chunks : list GenerateContentResponse;
  thrown : option JsError
}.

(** A chat session, seen through the one method the code calls. *)
Record Chat : Type := mkChat {
  chat_sendMessageStream : MessagePayload -> result JsError ResponseStream
}.

(** *** Sessions *)

Inductive Tool : Type := googleSearch | googleMaps.

Record ChatConfig : Type := mkChatConfig {
  systemInstruction : string;
  thinkingBudget : option Z;
  tools : option (list Tool)
}.

Record ChatCreateParameters : Type := mkChatCreate {
  cc_model : ModelType;
  cc_config : ChatConfig;
  cc_history : list Content
}.

Record ClientOptions : Type := mkClientOptions { apiKey : string }.

Definition defaultInstruction : string :=
  "You are Toma Ai, a helpful and intelligent AI assistant developed by Tamer Mohamed Saleh. You are chatting with an Arabic speaking user. Always reply in Arabic unless the user specifically asks for another language. Be polite, concise, and accurate.".

Section Sessions.

(** The SDK is an external collaborator: the constructor of its client
    and [ai.chats.create] are parameters. *)
Variable Client : Type.
Variable GoogleGenAI : ClientOptions -> result JsError Client.
Variable chats_create : Client -> ChatCreateParameters -> result JsError Chat.

(** Always create a new client to ensure we use the latest API Key. *)
Definition getClient (env : Env) : result JsError Client :=
  let apiKey := or_else (API_KEY env) "" in
  GoogleGenAI (mkClientOptions apiKey).

Definition createChatSession (env : Env) (model : ModelType)
    (systemInstruction : option string) : result JsError Chat :=
  match getClient env with
  | Err e => Err e
  | Ok ai =>
      let config :=
        mkChatConfig (or_else systemInstruction defaultInstruction) None None in
      let config :=
        if ModelType_eqb model PRO
        then mkChatConfig (Gemini.systemInstruction config) (Some 32768%Z) (tools config)
        else config in
      let config :=
        if ModelType_eqb model FLASH
        then mkChatConfig (Gemini.systemInstruction config) (thinkingBudget config)
               (Some [googleSearch; googleMaps])
        else config in
      chats_create ai (mkChatCreate model config [])
  end.

End Sessions.

(** *** [sendMessageStream] *)

(** The element type of the [attachments] parameter. *)
Record InlineAttachment : Type := mkInline {
  ia_data : string;
  ia_mimeType : string
}.

Definition inlinePart (att : InlineAttachment) : Part :=
  mkPart
    (Some (mkBlob (item (split ","%char (ia_data att)) 1) (Some (ia_mimeType att))))
    None.

Definition textPart (message : string) : Part :=
  mkPart None (Some message).

(** The value of [messagePayload] when the request is made. *)
Definition messagePayload (message : string)
    (attachments : list InlineAttachment) : MessagePayload :=
  if Nat.ltb 0 (List.length attachments)
  then PayloadParts (map inlinePart attachments ++ [textPart message])%list
  else PayloadString message.

Definition sendMessageStream (chat : Chat) (message : string)
    (attachments : list InlineAttachment) : result JsError ResponseStream :=
  match chat_sendMessageStream chat (messagePayload message attachments) with
  | Ok stream => Ok stream
  | Err error => Err error   (* logged, then thrown again *)
  end.

(** *** One-shot calls: the log of what the world sees *)

Inductive ImageModel : Type := flash_image | pro_image_preview.

Definition ImageModel_value (m : ImageModel) : string :=
  match m with
  | flash_image => "gemini-2.5-flash-image"
  | pro_image_preview => "gemini-3-pro-image-preview"
  end.

Record ImageConfig : Type := mkImageConfig {
  imageSize : string;
  ic_aspectRatio : string
}.

Record GenerateContentParameters : Type := mkGenerateContent {
  gc_model : ImageModel;
  gc_contents : list Part;
  gc_imageConfig : option ImageConfig
}.

Inductive AspectRatio : Type := ratio_16_9 | ratio_9_16.

Record GenerateVideosParameters : Type := mkGenerateVideos {
  gv_model : ModelType;
  gv_prompt : string;
  gv_numberOfVideos : Z;
  gv_resolution : string;
  gv_aspectRatio : AspectRatio
}.

Record Video : Type := mkVideo { uri : option string }.

Record GeneratedVideo : Type := mkGeneratedVideo { video : option Video }.

Record GenerateVideosResponse : Type := mkVideosResponse {
  generatedVideos : option (list GeneratedVideo)
}.

Record Operation : Type := mkOperation {
  done : option bool;
  response : option GenerateVideosResponse
}.

(** A request made to the remote service, or a timer the code waits for
    (in milliseconds), in the order they happen. *)
Inductive Event : Type :=
| CallGenerateContent : GenerateContentParameters -> Event
| CallGenerateVideos : GenerateVideosParameters -> Event
| CallGetVideosOperation : Operation -> Event
| SetTimeout : Z -> Event.

Definition isTimeout (e : Event) : bool :=
  match e with SetTimeout _ => true | _ => false end.

Definition isGenerateContent (e : Event) : bool :=
  match e with CallGenerateContent _ => true | _ => false end.

Definition isPoll (e : Event) : bool :=
  match e with CallGetVideosOperation _ => true | _ => false end.

(** The delays of a log, in order. *)
Fixpoint delays (log : list Event) : list Z :=
  match log with
  | [] => []
  | SetTimeout ms :: log' => ms :: delays log'
  | _ :: log' => delays log'
  end.

(** *** [generateImage] *)

(** The loop over the parts of the first candidate: the first part with
    inline data gives the data URI. *)
Fixpoint firstInlineImage (ps : list Part) : option string :=
  match ps with
  | [] => None
  | part :: ps' =>
      match part_inlineData part with
      | Some inlineData =>
          match blob_data inlineData with
          | Some data =>
              if truthy data
              then Some ("data:" ++ or_else (blob_mimeType inlineData) "image/png"
                           ++ ";base64," ++ data)
              else firstInlineImage ps'
          | None => firstInlineImage ps'
          end
      | None => firstInlineImage ps'
      end
  end.

(** What [attemptGenerate] returns once [generateContent] has answered. *)
Definition imageOfResponse (response : GenerateContentResponse) : option string :=
  match candidates response with
  | Some candidates =>
      match item candidates 0 with
      | Some c0 =>
          match cand_content c0 with
          | Some content =>
              match parts content with
              | Some ps => firstInlineImage ps
              | None => None
              end
          | None => None
          end
      | None => None
      end
  | None => None
  end.

Definition imageRequest (prompt : string) (model : ImageModel)
    : GenerateContentParameters :=
  let config :=
    match model with
    | pro_image_preview => Some (mkImageConfig "2K" "1:1")
    | flash_image => None
    end in
  mkGenerateContent model [textPart prompt] config.

Section GenerateImage.

(** [generateContent n request] is the outcome of the call number [n]
    (from 0) that the client makes to [ai.models.generateContent]. *)
Variable generateContent :
  nat -> GenerateContentParameters -> result JsError GenerateContentResponse.

Variable prompt : string.
Variable model : ImageModel.

Equations? attemptGenerate (retryCount : nat)
    : result JsError (option string) * list Event
    by wf (3 - retryCount) lt :=
  attemptGenerate retryCount
    with generateContent retryCount (imageRequest prompt model) := {
    | Ok response =>
        (Ok (imageOfResponse response),
         [CallGenerateContent (imageRequest prompt model)]);
    | Err error with is429 error, lt_dec retryCount 3 := {
      | true, left _ =>
          let delay := ((Z.of_nat retryCount + 1) * 2000)%Z in
          let rest := attemptGenerate (retryCount + 1) in
          (fst rest,
           CallGenerateContent (imageRequest prompt model)
             :: SetTimeout delay :: snd rest);
      | _, _ =>
          (Err error, [CallGenerateContent (imageRequest prompt model)]) } }.
Proof. destruct retryCount as [|[|[|n]]]; simpl; lia. Qed.

Definition generateImage : result JsError (option string) * list Event :=
  attemptGenerate 0.

End GenerateImage.

(** *** [generateVeoVideo] *)

Definition videoRequest (prompt : string) (aspectRatio : AspectRatio)
    : GenerateVideosParameters :=
  mkGenerateVideos VEO prompt 1 "720p" aspectRatio.

(** [operation.response?.generatedVideos?.[0]?.video?.uri] *)
Definition videoUriOf (operation : Operation) : option string :=
  match response operation with
  | Some r =>
      match generatedVideos r with
      | Some vs =>
          match item vs 0 with
          | Some v0 =>
              match video v0 with
              | Some v => uri v
              | None => None
              end
          | None => None
          end
      | None => None
      end
  | None => None
  end.

Definition isDone (operation : Operation) : bool :=
  match done operation with
  | Some b => b
  | None => false
  end.

(** The last two statements of the [try] block: the link returned for
    the operation the loop ends with. *)
Definition videoLink (env : Env) (operation : Operation) : option string :=
  let videoUri := videoUriOf operation in
  if truthy_opt videoUri
  then Some (interpolate videoUri ++ "&key=" ++ interpolate (API_KEY env))
  else None.

Section GenerateVeoVideo.

Variable generateVideos :
  GenerateVideosParameters -> result JsError Operation.

(** [getVideosOperation n operation] is the outcome of the poll number
    [n] (from 0). *)
Variable getVideosOperation : nat -> Operation -> result JsError Operation.

(** The [while (!operation.done)] loop. Nothing in the source bounds it;
    [fuel] bounds the number of iterations the model follows, and [None]
    says that the loop was still running when the fuel ran out. *)
Fixpoint pollUntilDone (fuel : nat) (polls : nat) (operation : Operation)
    : option (result JsError Operation * list Event) :=
  if isDone operation then Some (Ok operation, [])
  else
    match fuel with
    | O => None
    | S fuel' =>
        match getVideosOperation polls operation with
        | Err error =>
            Some (Err error, [SetTimeout 5000; CallGetVideosOperation operation])
        | Ok operation' =>
            match pollUntilDone fuel' (S polls) operation' with
            | Some (r, log) =>
                Some (r, SetTimeout 5000 :: CallGetVideosOperation operation :: log)
            | None => None
            end
        end
    end.

Definition generateVeoVideo (fuel : nat) (env : Env) (prompt : string)
    (aspectRatio : AspectRatio)
    : option (result JsError (option string) * list Event) :=
  let request := videoRequest prompt aspectRatio in
  match generateVideos request with
  | Err error => Some (Err error, [CallGenerateVideos request])
  | Ok operation =>
      match pollUntilDone fuel 0 operation with
      | None => None
      | Some (Err error, log) => Some (Err error, CallGenerateVideos request :: log)
      | Some (Ok operation, log) =>
          Some (Ok (videoLink env operation), CallGenerateVideos request :: log)
      end
  end.

End GenerateVeoVideo.

End Gemini.

(** ** [src/App.tsx] *)

Module App.

Import Gemini.

Inductive ViewMode : Type :=
| V_chat | V_code | V_image | V_video | V_website | V_website_pro
| V_game | V_game2d | V_model3d | V_voice_face | V_flutter | V_video_to_code.

(** The line feed of the template literals. *)
Definition LF : string := String (ascii_of_nat 10) EmptyString.

(** *** [handleFileSelect] *)

Record File : Type := mkFile {
  file_name : string;
  file_type : string;
  file_size : Z
}.

(** A member of a loaded archive: the [dir] flag and what
    [entry.async('string')] gives. *)
Record ZipEntry : Type := mkZipEntry {
  dir : bool;
  async : result JsError string
}.

(** [Object.entries(zipContent.files)], in the order of the enumeration. *)
Definition ZipFiles : Type := list (string * ZipEntry).

(** What the readers give for a file: the result of [readAsDataURL], of
    [readAsText] and of [zip.loadAsync]. *)
Record FileContents : Type := mkContents {
  asDataURL : option string;
  asText : option string;
  asZip : result JsError ZipFiles
}.

(** [s.match(/\.(e1|...|en)$/i)] as a truth value. *)
Definition matchesExtension (exts : list string) (s : string) : bool :=
  existsb (fun ext => endsWith (toLowerCase s) ("." ++ ext)) exts.

Definition textFileExtensions : list string :=
  ["js"; "ts"; "tsx"; "jsx"; "json"; "html"; "css"; "py"; "md"; "txt";
   "xml"; "c"; "cpp"; "java"].

Definition archiveTextExtensions : list string :=
  ["js"; "ts"; "tsx"; "jsx"; "json"; "html"; "css"; "py"; "md"; "txt";
   "xml"; "c"; "cpp"; "java"; "config"; "yml"].

(** The text appended for one member. *)
Definition fileBlock (path content : string) : string :=
  LF ++ "--- START FILE: " ++ path ++ " ---" ++ LF ++ content ++ LF
     ++ "--- END FILE ---" ++ LF.

(** The [for ... of Object.entries(zipContent.files)] loop, from the
    values of [extractedText] and [fileCount] on entry. A member whose
    content cannot be read throws out of the loop. *)
Fixpoint extractEntries (entries : ZipFiles) (extractedText : string)
    (fileCount : nat) : result JsError (string * nat) :=
  match entries with
  | [] => Ok (extractedText, fileCount)
  | (path, entry) :: rest =>
      if Nat.ltb 50 fileCount then Ok (extractedText, fileCount) (* Limit file count *)
      else if negb (dir entry) then
        if matchesExtension archiveTextExtensions path then
          match async entry with
          | Ok content =>
              extractEntries rest (extractedText ++ fileBlock path content)
                (fileCount + 1)
          | Err e => Err e
          end
        else extractEntries rest extractedText fileCount
      else extractEntries rest extractedText fileCount
  end.

Definition archiveHeader (name : string) : string :=
  "[ARCHIVE_CONTENT: " ++ name ++ "]" ++ LF.

(** The body of the [for] loop of [handleFileSelect] for one file: the
    attachment that [setAttachments] appends for it, if any. *)
Definition attachmentOfFile (file : File) (c : FileContents) : option Attachment :=
  let isImage := startsWith (file_type file) "image/" in
  let isVideo := startsWith (file_type file) "video/" in
  let isPDF := String.eqb (file_type file) "application/pdf" in
  let isZip := String.eqb (file_type file) "application/zip"
               || endsWith (file_name file) ".zip" in
  let isText := startsWith (file_type file) "text/"
                || matchesExtension textFileExtensions (file_name file) in
  if isImage || isVideo || isPDF then
    match asDataURL c with
    | Some r =>
        if truthy r then
          Some (mkAttachment (file_name file) r (file_type file)
                  (if isImage then T_image else if isVideo then T_video else T_pdf)
                  (Some (file_size file)))
        else None
    | None => None
    end
  else if isZip then
    match asZip c with
    | Err _ => None     (* alert: the archive could not be read *)
    | Ok zipContent =>
        match extractEntries zipContent (archiveHeader (file_name file)) 0 with
        | Err _ => None
        | Ok (extractedText, _) =>
            Some (mkAttachment (file_name file) extractedText "application/zip"
                    T_zip (Some (file_size file)))
        end
    end
  else if isText then
    match asText c with
    | Some r =>
        if truthy r then
          Some (mkAttachment (file_name file)
                  ("[FILE_CONTENT: " ++ file_name file ++ "]" ++ LF ++ r)
                  (or_else (Some (file_type file)) "text/plain")
                  T_code (Some (file_size file)))
        else None
    | None => None
    end
  else
    Some (mkAttachment (file_name file)
            ("[FILE_CONTENT: " ++ file_name file ++ "]" ++ LF ++ interpolate (asText c))
            "text/plain" T_text (Some (file_size file))).

(** *** The state of the component and [handleSendMessage] *)

Record AppState : Type := mkApp {
  activeView : ViewMode;
  chatMessages : list Message;
  codeMessages : list Message;
  input : string;
  attachments : list Attachment;
  isLoading : bool;
  modelType : ModelType;
  chatSessionRef : option Chat;
  codeSessionRef : option Chat
}.

Definition isCode (v : ViewMode) : bool :=
  match v with V_code => true | _ => false end.

Definition getCurrentMessages (st : AppState) : list Message :=
  if isCode (activeView st) then codeMessages st else chatMessages st.

(** [setCurrentMessages], with the [activeView] its closure holds. *)
Definition setCurrentMessages (view : ViewMode)
    (action : list Message -> list Message) (st : AppState) : AppState :=
  if isCode view
  then mkApp (activeView st) (chatMessages st) (action (codeMessages st))
         (input st) (attachments st) (isLoading st) (modelType st)
         (chatSessionRef st) (codeSessionRef st)
  else mkApp (activeView st) (action (chatMessages st)) (codeMessages st)
         (input st) (attachments st) (isLoading st) (modelType st)
         (chatSessionRef st) (codeSessionRef st).

Definition setInput (s : string) (st : AppState) : AppState :=
  mkApp (activeView st) (chatMessages st) (codeMessages st) s
    (attachments st) (isLoading st) (modelType st)
    (chatSessionRef st) (codeSessionRef st).

Definition setAttachments (l : list Attachment) (st : AppState) : AppState :=
  mkApp (activeView st) (chatMessages st) (codeMessages st) (input st) l
    (isLoading st) (modelType st) (chatSessionRef st) (codeSessionRef st).

Definition setIsLoading (b : bool) (st : AppState) : AppState :=
  mkApp (activeView st) (chatMessages st) (codeMessages st) (input st)
    (attachments st) b (modelType st) (chatSessionRef st) (codeSessionRef st).

(** The four readings of [Date.now()] that one call of
    [handleSendMessage] makes, in the order of the calls. *)
Record Clock : Type := mkClock {
  now1 : Z;   (* the identifier of the user message *)
  now2 : Z;   (* its timestamp *)
  now3 : Z;   (* the identifier of the placeholder, before + 1 *)
  now4 : Z    (* its timestamp, before + 1 *)
}.

(** 1. Images/Videos/PDFs -> Go to 'inlineData' (attachments param) *)
Definition isInline (att : Attachment) : bool :=
  match att_type att with
  | T_image | T_video | T_pdf => true
  | _ => false
  end.

(** The body of [attachments.forEach], on the pair of
    [userMessageText] and [inlineAttachments]. *)
Definition routeAttachment (acc : string * list InlineAttachment)
    (att : Attachment) : string * list InlineAttachment :=
  let (userMessageText, inlineAttachments) := acc in
  if isInline att
  then (userMessageText,
        (inlineAttachments ++ [mkInline (att_data att) (att_mimeType att)])%list)
  else (userMessageText ++ LF ++ LF ++ att_data att, inlineAttachments).

Definition routeAttachments (userMessageText : string)
    (atts : list Attachment) : string * list InlineAttachment :=
  fold_left routeAttachment atts (userMessageText, []).

Definition failureText : string := "عذراً، حدث خطأ أثناء المعالجة.".

(** [{ ...msg, content: accumulatedText }] for the placeholder. *)
Definition withContent (aiPlaceholderId accumulatedText : string)
    (msg : Message) : Message :=
  if String.eqb (id msg) aiPlaceholderId
  then mkMessage (id msg) (role msg) accumulatedText (timestamp msg)
         (isError msg) (Types.attachments msg)
  else msg.

(** [{ ...msg, content: '...', isError: true }] for the placeholder. *)
Definition withFailure (aiPlaceholderId : string) (msg : Message) : Message :=
  if String.eqb (id msg) aiPlaceholderId
  then mkMessage (id msg) (role msg) failureText (timestamp msg)
         (Some true) (Types.attachments msg)
  else msg.

(** The [for await] loop over the chunks that arrive, from the value of
    [accumulatedText] on entry; every chunk with a text publishes the
    whole text so far. *)
Fixpoint consume (view : ViewMode) (aiPlaceholderId : string)
    (cs : list GenerateContentResponse) (accumulatedText : string)
    (st : AppState) : string * AppState :=
  match cs with
  | [] => (accumulatedText, st)
  | chunk :: cs' =>
      if truthy_opt (text chunk)
      then
        let accumulatedText := accumulatedText ++ interpolate (text chunk) in
        consume view aiPlaceholderId cs' accumulatedText
          (setCurrentMessages view
             (map (withContent aiPlaceholderId accumulatedText)) st)
      else consume view aiPlaceholderId cs' accumulatedText st
  end.

Definition currentSession (st : AppState) : option Chat :=
  if isCode (activeView st) then codeSessionRef st else chatSessionRef st.

(** The [catch] block. *)
Definition markFailed (view : ViewMode) (aiPlaceholderId : string)
    (st : AppState) : AppState :=
  setCurrentMessages view (map (withFailure aiPlaceholderId)) st.

(** The [try] and [catch] blocks, given the outcome of [sendMessageStream]:
    a value thrown while the stream is set up or after some chunks have
    arrived ends in the [catch] block. *)
Definition tryExchange (view : ViewMode) (aiPlaceholderId : string)
    (sent : result JsError ResponseStream) (st : AppState) : AppState :=
  match sent with
  | Err _ => markFailed view aiPlaceholderId st
  | Ok resultStream =>
      let st' := snd (consume view aiPlaceholderId (chunks resultStream) "" st) in
      match thrown resultStream with
      | Some _ => markFailed view aiPlaceholderId st'
      | None => st'
      end
  end.

(** The guard of the first line. *)
Definition refused (st : AppState) : bool :=
  (negb (truthy (trim (input st))) && Nat.eqb (List.length (attachments st)) 0)
  || isLoading st.

Definition aiPlaceholderId (now : Clock) : string :=
  toString (now3 now + 1).

(** Clear Input, then the Optimistic UI Update: the user message and the
    empty placeholder are appended and the loading flag is raised. *)
Definition optimisticUpdate (now : Clock) (st : AppState) : AppState :=
  let displayAttachments := attachments st in
  let newUserMessage :=
    mkMessage (toString (now1 now)) USER (trim (input st)) (now2 now)
      None (Some displayAttachments) in
  let aiPlaceholder :=
    mkMessage (aiPlaceholderId now) MODEL "" (now4 now + 1) None None in
  setIsLoading true
    (setCurrentMessages (activeView st)
       (fun prev => (prev ++ [newUserMessage; aiPlaceholder])%list)
       (setAttachments [] (setInput "" st))).

Definition handleSendMessage (now : Clock) (st : AppState) : AppState :=
  if refused st then st
  else
    match currentSession st with
    | None => st
    | Some session =>
        let (userMessageText, inlineAttachments) :=
          routeAttachments (trim (input st)) (attachments st) in
        let st' :=
          tryExchange (activeView st) (aiPlaceholderId now)
            (sendMessageStream session userMessageText inlineAttachments)
            (optimisticUpdate now st) in
        setIsLoading false st'
    end.

End App.

Import Gemini App.

(** ** [src/App.tsx]: the other handlers *)

Module AppHandlers.

(** [prev.filter((_, i) => i !== index)], the elements being numbered
    from [i]. *)
Fixpoint filterIndex {A : Type} (index i : nat) (prev : list A) : list A :=
  match prev with
  | [] => []
  | x :: prev' =>
      if negb (Nat.eqb i index) then x :: filterIndex index (S i) prev'
      else filterIndex index (S i) prev'
  end.

Definition removeAttachment (index : nat) (st : AppState) : AppState :=
  setAttachments (filterIndex index 0 (App.attachments st)) st.

End AppHandlers.

Import AppHandlers.

(** ** [src/components/ChatMessage.tsx] and [src/components/ImageGenerator.tsx] *)

Module Components.

(** [const isUser = message.role === Role.USER] *)
Definition isUser (message : Message) : bool :=
  String.eqb (Role_value (role message)) (Role_value USER).

Definition truthy_flag (o : option bool) : bool :=
  match o with
  | Some b => b
  | None => false
  end.

(** [const isThinking = !isUser && !message.content && !message.isError] *)
Definition isThinking (message : Message) : bool :=
  negb (isUser message) && negb (truthy (content message))
  && negb (truthy_flag (isError message)).

(** The state of [ImageGenerator]. *)
Record ImageGeneratorState : Type := mkImageGenerator {
  ig_prompt : string;
  selectedModel : ImageModel;
  ig_isLoading : bool;
  imageUrl : option string;
  ig_error : option string
}.

Definition generationFailed : string := "فشل التوليد. الاتصال العصبي غير مستقر.".

Definition generationCrashed : string := "خطأ حرج في وحدة التصنيع البصري.".

(** [handleGenerate], given the answers of the service to the requests
    of [generateImage]. *)
Definition handleGenerate
    (generateContent :
       nat -> GenerateContentParameters -> result JsError GenerateContentResponse)
    (st : ImageGeneratorState) : ImageGeneratorState :=
  if negb (truthy (trim (ig_prompt st))) || ig_isLoading st then st
  else
    let st1 := mkImageGenerator (ig_prompt st) (selectedModel st) true None None in
    let st2 :=
      match fst (generateImage generateContent (ig_prompt st) (selectedModel st)) with
      | Ok result =>
          if truthy_opt result
          then mkImageGenerator (ig_prompt st1) (selectedModel st1)
                 (ig_isLoading st1) result (ig_error st1)
          else mkImageGenerator (ig_prompt st1) (selectedModel st1)
                 (ig_isLoading st1) (imageUrl st1) (Some generationFailed)
      | Err _ =>
          mkImageGenerator (ig_prompt st1) (selectedModel st1)
            (ig_isLoading st1) (imageUrl st1) (Some generationCrashed)
      end in
    mkImageGenerator (ig_prompt st2) (selectedModel st2) false
      (imageUrl st2) (ig_error st2).

End Components.

Import Components.

(** ** [src/services/gemini.ts]: generated code *)

Module CodeGen.

(** [s.replace(/pat/g, '')] for a pattern [pat] that is a text and is not
    empty: the occurrences are looked for from the left and do not
    overlap. [skip] is the number of characters of the occurrence found
    that are still to be dropped. *)
Fixpoint removeFrom (pat : string) (skip : nat) (s : string) : string :=
  match s with
  | EmptyString => EmptyString
  | String c s' =>
      match skip with
      | S k => removeFrom pat k s'
      | O =>
          if String.prefix pat s
          then removeFrom pat (String.length pat - 1) s'
          else String c (removeFrom pat 0 s')
      end
  end.

Definition removeAll (pat s : string) : string := removeFrom pat 0 s.

Definition cleanCodeResponse (code : string) : string :=
  trim (removeAll "```" (removeAll "```html" code)).

Record ProjectFile : Type := mkProjectFile {
  pf_path : string;
  pf_content : string
}.

Record ReverseEngineeringPlan : Type := mkPlan {
  plan_colors : list string;
  plan_typography : list string;
  layoutAnalysis : string;
  plan_animations : list string;
  interactions : list string;
  techStack : string
}.

(** A request of [ai.models.generateContent] or
    [ai.models.generateContentStream]: the model and the parts. *)
Record ContentRequest : Type := mkContentRequest {
  cr_model : string;
  cr_parts : list Part
}.

(** The [for await] loop that adds the text of each chunk to [fullCode]. *)
Fixpoint collectText (cs : list GenerateContentResponse) (fullCode : string)
    : string :=
  match cs with
  | [] => fullCode
  | chunk :: cs' =>
      if truthy_opt (text chunk)
      then collectText cs' (fullCode ++ interpolate (text chunk))
      else collectText cs' fullCode
  end.

(** The loop and the [return] that follows it: a stream that throws
    throws out of both. *)
Definition codeOfStream (responseStream : ResponseStream)
    : result JsError string :=
  match thrown responseStream with
  | Some e => Err e
  | None => Ok (cleanCodeResponse (collectText (chunks responseStream) ""))
  end.

Section UpdateProjectFile.

Variable generateContent :
  ContentRequest -> result JsError GenerateContentResponse.

Definition updateProjectFile (prompt : string) (currentFile : ProjectFile)
    : result JsError string :=
  match
    generateContent
      (mkContentRequest "gemini-2.5-flash"
         [textPart ("Update this file code based on request: " ++ prompt
                      ++ LF ++ LF ++ "Code:" ++ LF ++ pf_content currentFile)])
  with
  | Ok res => Ok (cleanCodeResponse (or_else (text res) ""))
  | Err e => Err e
  end.

End UpdateProjectFile.

Section GenerateCodeFromPlan.

(** [JSON.stringify(plan, null, 2)] *)
Variable JSON_stringify : ReverseEngineeringPlan -> string.

(** [generateContentStream n request] is the outcome of the request
    number [n] (from 0) made to [ai.models.generateContentStream]. *)
Variable generateContentStream :
  nat -> ContentRequest -> result JsError ResponseStream.

Definition planPrompt (plan : ReverseEngineeringPlan) : string :=
  "
    You are a Senior Frontend Developer.
    
    TASK: Replicate a website based on this forensic analysis plan.
    Create a SINGLE HTML file containing everything (HTML, CSS via Tailwind CDN, JS).
    
    ANALYSIS PLAN:
    "
  ++ JSON_stringify plan
  ++ "
    
    REQUIREMENTS:
    1. Pixel-Perfect accuracy to the described layout.
    2. Use Tailwind CSS for styling.
    3. Use GSAP (via CDN) for the described animations.
    4. Ensure responsive design (Mobile/Desktop).
    5. The code must be complete and runnable.

    Return ONLY raw HTML code.
    ".

Definition attemptStream (n : nat) (plan : ReverseEngineeringPlan)
    (modelName : string) : result JsError ResponseStream :=
  generateContentStream n
    (mkContentRequest modelName [textPart (planPrompt plan)]).

(** The result, and the models asked in the order of the requests. *)
Definition generateCodeFromPlan (plan : ReverseEngineeringPlan)
    : result JsError string * list string :=
  let retry :=
    match attemptStream 1 plan "gemini-2.5-flash" with
    | Ok responseStream => codeOfStream responseStream
    | Err retryError => Err retryError
    end in
  match attemptStream 0 plan "gemini-3-pro-preview" with
  | Ok responseStream =>
      match codeOfStream responseStream with
      | Ok code => (Ok code, ["gemini-3-pro-preview"])
      | Err _ => (retry, ["gemini-3-pro-preview"; "gemini-2.5-flash"])
      end
  | Err _ => (retry, ["gemini-3-pro-preview"; "gemini-2.5-flash"])
  end.

End GenerateCodeFromPlan.

End CodeGen.

Import CodeGen.

(** ** Vocabulary of the properties *)

(** The text a chunk delivers; a chunk without text delivers nothing. *)
Definition textOf (chunk : GenerateContentResponse) : string :=
  match text chunk with
  | Some t => t
  | None => ""
  end.

(** The concatenation of the fragments in the order of delivery. *)
Fixpoint concatTexts (cs : list GenerateContentResponse) : string :=
  match cs with
  | [] => ""
  | c :: cs' => textOf c ++ concatTexts cs'
  end.

(** The placeholder of a send, holding a given content and error flag. *)
Definition placeholderWith (now : Clock) (content : string)
    (isError : option bool) : Message :=
  mkMessage (aiPlaceholderId now) MODEL content (now4 now + 1) isError None.

(** The inline attachment made of a binary attachment. *)
Definition toInline (att : Attachment) : InlineAttachment :=
  mkInline (att_data att) (att_mimeType att).

(** The text appended to the prompt for a text-like attachment. *)
Definition promptText (att : Attachment) : string :=
  LF ++ LF ++ att_data att.

Definition isPromptText (att : Attachment) : bool := negb (isInline att).

Fixpoint concatAll (l : list string) : string :=
  match l with
  | [] => ""
  | s :: l' => s ++ concatAll l'
  end.

(** No comma in a string. *)
Fixpoint commaFree (s : string) : bool :=
  match s with
  | EmptyString => true
  | String c s' => negb (Ascii.eqb c ","%char) && commaFree s'
  end.

(** The exchange ends in the [catch] block: the request itself throws,
    or the stream throws after the chunks it has delivered. *)
Definition exchangeFails (sent : result JsError ResponseStream) : bool :=
  match sent with
  | Err _ => true
  | Ok resultStream =>
      match thrown resultStream with
      | Some _ => true
      | None => false
      end
  end.

(** What [handleSendMessage] passes to [sendMessageStream]. *)
Definition sentBy (session : Chat) (st : AppState)
    : result JsError ResponseStream :=
  sendMessageStream session
    (fst (routeAttachments (trim (input st)) (attachments st)))
    (snd (routeAttachments (trim (input st)) (attachments st))).

(** An attempt that ends with a quota error. *)
Definition quotaFailure
    (o : result JsError GenerateContentResponse) : bool :=
  match o with
  | Err e => is429 e
  | Ok _ => false
  end.

(** What the caller of [generateImage] gets from the attempt that ends
    the call. *)
Definition outcomeOf (o : result JsError GenerateContentResponse)
    : result JsError (option string) :=
  match o with
  | Ok r => Ok (imageOfResponse r)
  | Err e => Err e
  end.

(** [count] retries following the attempt number [from]: each attempt is
    one request, and a delay of 2000 ms times the number of attempts made
    so far separates it from the next. *)
Fixpoint retryLog (request : GenerateContentParameters) (from count : nat)
    : list Event :=
  match count with
  | O => [CallGenerateContent request]
  | S count' =>
      CallGenerateContent request
        :: SetTimeout ((Z.of_nat from + 1) * 2000)
        :: retryLog request (S from) count'
  end.

(** The polls number [polls], [polls + 1], ... made from [operation]
    give the operations [ops], one after the other. *)
Fixpoint pollsReturn (getVideosOperation : nat -> Operation -> result JsError Operation)
    (polls : nat) (operation : Operation) (ops : list Operation) : Prop :=
  match ops with
  | [] => True
  | o :: rest =>
      getVideosOperation polls operation = Ok o
      /\ pollsReturn getVideosOperation (S polls) o rest
  end.

(** The log of these polls: a delay of 5000 ms, then the request. *)
Fixpoint pollLog (operation : Operation) (ops : list Operation) : list Event :=
  match ops with
  | [] => []
  | o :: rest =>
      SetTimeout 5000 :: CallGetVideosOperation operation :: pollLog o rest
  end.

(** The parts of a candidate, and of a response. *)
Definition partsOf (c : Candidate) : list Part :=
  match cand_content c with
  | Some ct =>
      match parts ct with
      | Some ps => ps
      | None => []
      end
  | None => []
  end.

Definition allParts (r : GenerateContentResponse) : list Part :=
  match candidates r with
  | Some cs => flat_map partsOf cs
  | None => []
  end.

Definition firstParts (r : GenerateContentResponse) : list Part :=
  match candidates r with
  | Some (c :: _) => partsOf c
  | _ => []
  end.

(** A part that carries inline data. *)
Definition hasInlineImage (p : Part) : bool :=
  match part_inlineData p with
  | Some b => truthy_opt (blob_data b)
  | None => false
  end.

(** The data URI of such a part: its MIME type, [image/png] when it has
    none, then its data. *)
Definition dataUriOf (p : Part) : string :=
  match part_inlineData p with
  | Some b =>
      "data:"
      ++ match blob_mimeType b with
         | Some m => if truthy m then m else "image/png"
         | None => "image/png"
         end
      ++ ";base64,"
      ++ match blob_data b with
         | Some d => d
         | None => ""
         end
  | None => ""
  end.

(** A member of an archive that the loop takes: not a directory, with
    the extension of a text file. *)
Definition qualifies (m : string * ZipEntry) : bool :=
  negb (dir (snd m)) && matchesExtension archiveTextExtensions (fst m).

(** Its content can be read. *)
Definition readable (m : string * ZipEntry) : Prop :=
  exists content, async (snd m) = Ok content.

(** Its content between the markers that carry its path. *)
Definition blockOf (m : string * ZipEntry) : string :=
  match async (snd m) with
  | Ok content => fileBlock (fst m) content
  | Err _ => ""
  end.

(** The file is handled by the archive branch of [handleFileSelect]. *)
Definition zipBranch (file : File) : bool :=
  negb (startsWith (file_type file) "image/"
        || startsWith (file_type file) "video/"
        || String.eqb (file_type file) "application/pdf")
  && (String.eqb (file_type file) "application/zip"
      || endsWith (file_name file) ".zip").

(** ** Scenarios *)

(** A session that answers with an empty stream. *)
Definition idleChat : Chat := mkChat (fun _ => Ok (mkStream [] None)).

(** An SDK whose client constructor takes any key and whose
    [chats.create] returns a session. *)
Definition lenientClient (o : ClientOptions) : result JsError unit := Ok tt.

Definition lenientCreate (ai : unit) (p : ChatCreateParameters)
    : result JsError Chat :=
  Ok idleChat.

Definition chunkOf (t : string) : GenerateContentResponse :=
  mkResponse None (Some t).

(** The answer "Hi there" in two fragments, then the end of the stream. *)
Definition helloChat : Chat :=
  mkChat (fun _ => Ok (mkStream [chunkOf "Hi"; chunkOf " there"] None)).

(** The same two fragments, then a failure of the transport. *)
Definition brokenChat : Chat :=
  mkChat (fun _ =>
            Ok (mkStream [chunkOf "Hi"; chunkOf " there"]
                  (Some (mkError None None (Some "network error"))))).

Definition pngAttachment : Attachment :=
  mkAttachment "a.png" "data:image/png;base64,AAAA" "image/png" T_image
    (Some 3%Z).

Definition helloState (chat : Chat) : AppState :=
  mkApp V_chat [] [] "hello" [pngAttachment] false FLASH (Some chat) None.

Definition clockAt (t : Z) : Clock := mkClock t t t t.

(** Two sends, the second one millisecond after the first. *)
Definition firstSend : AppState :=
  handleSendMessage (clockAt 1000)
    (mkApp V_chat [] [] "one" [] false FLASH (Some idleChat) None).

Definition secondSend : AppState :=
  handleSendMessage (clockAt 1001) (setInput "two" firstSend).

Definition quotaError : JsError :=
  mkError (Some "RESOURCE_EXHAUSTED") (Some 429%Z) (Some "quota exceeded").

(** A service that answers every request with a quota error. *)
Definition exhausted (n : nat) (p : GenerateContentParameters)
    : result JsError GenerateContentResponse :=
  Err quotaError.

(** A service that answers with no candidate. *)
Definition noCandidate (n : nat) (p : GenerateContentParameters)
    : result JsError GenerateContentResponse :=
  Ok (mkResponse (Some []) None).

Definition pendingOperation : Operation := mkOperation (Some false) None.

Definition finishedOperation : Operation :=
  mkOperation (Some true)
    (Some (mkVideosResponse
             (Some [mkGeneratedVideo (Some (mkVideo (Some "https://v/1?alt=media")))]))).

Definition submitVideo (p : GenerateVideosParameters)
    : result JsError Operation :=
  Ok (mkOperation None None).

(** Not done at the first three polls, done at the fourth. *)
Definition fourthPollDone (n : nat) (o : Operation)
    : result JsError Operation :=
  if Nat.eqb n 3 then Ok finishedOperation else Ok pendingOperation.

Definition siteArchive : ZipFiles :=
  [("site/", mkZipEntry true (Ok ""));
   ("site/index.html", mkZipEntry false (Ok "<p>hi</p>"));
   ("site/logo.png", mkZipEntry false (Ok "PNG"));
   ("site/App.TSX", mkZipEntry false (Ok "export {}"))].

Definition siteFile : File := mkFile "site.zip" "application/zip" 2048.

Definition siteContents : FileContents :=
  mkContents None None (Ok siteArchive).

(** ** Vocabulary of the further properties *)

(** The messages of the lane that is not shown. *)
Definition otherMessages (st : AppState) : list Message :=
  if isCode (activeView st) then chatMessages st else codeMessages st.

(** The chunks that arrived in an exchange. *)
Definition chunksOf (sent : result JsError ResponseStream)
    : list GenerateContentResponse :=
  match sent with
  | Ok resultStream => chunks resultStream
  | Err _ => []
  end.

(** The placeholder at the end of an exchange. *)
Definition settledPlaceholder (now : Clock)
    (sent : result JsError ResponseStream) : Message :=
  if exchangeFails sent
  then placeholderWith now failureText (Some true)
  else placeholderWith now (concatTexts (chunksOf sent)) None.

(** The user message of a send. *)
Definition userMessageOf (now : Clock) (st : AppState) : Message :=
  mkMessage (toString (now1 now)) USER (trim (input st)) (now2 now) None
    (Some (App.attachments st)).

(** The file is read as a data URL: an image, a video or a PDF file. *)
Definition isBinaryFile (file : File) : bool :=
  startsWith (file_type file) "image/"
  || startsWith (file_type file) "video/"
  || String.eqb (file_type file) "application/pdf".

(** The file is handled by the text branch of [handleFileSelect]. *)
Definition textBranch (file : File) : bool :=
  negb (isBinaryFile file)
  && negb (String.eqb (file_type file) "application/zip"
           || endsWith (file_name file) ".zip")
  && (startsWith (file_type file) "text/"
      || matchesExtension textFileExtensions (file_name file)).

(** The sum of the delays of a log. *)
Definition totalDelay (log : list Event) : Z :=
  fold_right Z.add 0%Z (delays log).

(** The requests of a log that ask for content. *)
Definition requestsOf (log : list Event) : nat :=
  List.length (filter isGenerateContent log).

(** A service for images whose first answer is a quota error and whose
    second answer carries a picture. *)
Definition secondTry (n : nat) (p : GenerateContentParameters)
    : result JsError GenerateContentResponse :=
  if Nat.eqb n 0 then Err quotaError
  else Ok (mkResponse
             (Some [mkCandidate
                      (Some (mkContent
                               (Some [mkPart (Some (mkBlob (Some "QUJD") None)) None])))])
             None).

(** A poll that fails at the second request. *)
Definition secondPollFails (n : nat) (o : Operation)
    : result JsError Operation :=
  if Nat.eqb n 1 then Err (mkError None (Some 503%Z) (Some "unavailable"))
  else Ok pendingOperation.

(** A chat state with an earlier exchange, and a session that fails. *)
Definition failingChat : Chat :=
  mkChat (fun _ => Err (mkError None None (Some "offline"))).

(** A no-break space (U+00A0). *)
Definition NBSP : string :=
  String (ascii_of_nat 194) (String (ascii_of_nat 160) EmptyString).

(** A state whose input is a space, a no-break space and a line feed. *)
Definition blankState : AppState :=
  mkApp V_code [] [] (" " ++ NBSP ++ LF) [] false PRO None (Some idleChat).

Definition pngFile : File := mkFile "a.png" "image/png" 3.

Definition pngContents : FileContents :=
  mkContents (Some "data:image/png;base64,AAAA") None (Err (mkError None None None)).

Definition notesFile : File := mkFile "notes.md" "" 5.

Definition notesContents : FileContents :=
  mkContents None (Some "# hi") (Err (mkError None None None)).

Definition brokenArchive : ZipFiles :=
  [("a.txt", mkZipEntry false (Ok "a"));
   ("b.txt", mkZipEntry false (Err (mkError None None (Some "corrupt"))))].

(** A stream of code in two chunks, and a stream that breaks. *)
Definition codeStream : ResponseStream :=
  mkStream [chunkOf "```html"; chunkOf "<p>hi</p>```"] None.

Definition brokenStream : ResponseStream :=
  mkStream [chunkOf "<p>partial"] (Some (mkError None None (Some "reset"))).

Definition proBreaks (n : nat) (r : ContentRequest)
    : result JsError ResponseStream :=
  if Nat.eqb n 0 then Ok brokenStream else Ok codeStream.

(** What a send must leave as it is: the view, the other lane, the model
    and the two sessions. *)
Definition frame (st : AppState)
    : ViewMode * list Message * ModelType * option Chat * option Chat :=
  (activeView st, otherMessages st, modelType st, chatSessionRef st,
   codeSessionRef st).

(** The fields a send resets. *)
Definition composer (st : AppState) : string * list Attachment * bool :=
  (input st, App.attachments st, isLoading st).

(** What one attempt of [generateCodeFromPlan] gives: the code of the
    stream, or what was thrown when the stream was asked for or read. *)
Definition codeOfAttempt (a : result JsError ResponseStream)
    : result JsError string :=
  match a with
  | Ok responseStream => codeOfStream responseStream
  | Err e => Err e
  end.


(** A lane whose only message has the identifier that the placeholder of
    a send at 1000 gets, and whose session fails. *)
Definition collidingState : AppState :=
  mkApp V_chat [mkMessage "1001" MODEL "an earlier answer" 1 None None] []
    "again" [] false FLASH (Some failingChat) None.

(** The code lane, empty, beside a chat lane that holds the two messages
    of an earlier send. *)
Definition codeLaneState : AppState :=
  mkApp V_code (getCurrentMessages firstSend) [] "build" [] false FLASH
    (Some idleChat) (Some helloChat).

(** The image studio showing an older picture. *)
Definition studioState : ImageGeneratorState :=
  mkImageGenerator "a cat" flash_image false
    (Some "data:image/png;base64,T0xE") None.

(** ** Vocabulary of the payload *)

(** The kinds of attachment that hold binary data. *)
Definition binaryKind (k : AttachmentType) : bool :=
  match k with
  | T_image | T_video | T_pdf => true
  | T_text | T_zip | T_code => false
  end.

Definition binariesOf (atts : list Attachment) : list Attachment :=
  filter (fun a => binaryKind (att_type a)) atts.

Definition textsOf (atts : list Attachment) : list Attachment :=
  filter (fun a => negb (binaryKind (att_type a))) atts.

(** The message text once the text-like attachments have been appended,
    each after two line feeds. *)
Definition promptOf (userText : string) (atts : list Attachment) : string :=
  userText
  ++ concatAll (map (fun a => LF ++ LF ++ att_data a) (textsOf atts)).

(** The inline part expected for a binary attachment: what stands
    between the first and the second comma of its data, and its MIME
    type. *)
Definition inlinePartOf (a : Attachment) : Part :=
  mkPart
    (Some (mkBlob (nth_error (split ","%char (att_data a)) 1)
             (Some (att_mimeType a))))
    None.

(** What the session is expected to receive for an input and the
    attachments of the state. *)
Definition expectedPayload (userText : string) (atts : list Attachment)
    : MessagePayload :=
  match binariesOf atts with
  | [] => PayloadString (promptOf userText atts)
  | b :: bs =>
      PayloadParts
        (map inlinePartOf (b :: bs)
           ++ [mkPart None (Some (promptOf userText atts))])%list
  end.

(** A data URL: a prefix, a comma and a payload, neither of which holds
    a comma (as the Base64 data URL that [readAsDataURL] gives), and the
    MIME type sent with it. *)
Record DataUrl : Type := mkDataUrl {
  du_prefix : string;
  du_payload : string;
  du_mimeType : string
}.

Definition dataUrlOk (d : DataUrl) : bool :=
  commaFree (du_prefix d) && commaFree (du_payload d).

Definition attachmentOfDataUrl (d : DataUrl) : InlineAttachment :=
  mkInline (du_prefix d ++ "," ++ du_payload d) (du_mimeType d).

(** The inline part expected for it: the payload alone. *)
Definition inlinePartOfDataUrl (d : DataUrl) : Part :=
  mkPart (Some (mkBlob (Some (du_payload d)) (Some (du_mimeType d)))) None.

(** Attachments of the two routes, and a state that holds them. *)
Definition pdfAttachment : Attachment :=
  mkAttachment "b.pdf" "data:application/pdf;base64,JVBERg==" "application/pdf"
    T_pdf (Some 4%Z).

Definition noteAttachment : Attachment :=
  mkAttachment "n.txt" "[FILE_CONTENT: n.txt]x" "text/plain" T_code (Some 1%Z).

Definition mixedState : AppState :=
  mkApp V_chat [] [] " see " [pngAttachment; noteAttachment; pdfAttachment]
    false FLASH (Some helloChat) None.

(** ** Strings *)

Lemma append_nil_r (s : string) : s ++ "" = s.
Proof. induction s as [|c s IH]; simpl; [reflexivity | now rewrite IH]. Qed.

Lemma append_assoc (a b c : string) : (a ++ b) ++ c = a ++ (b ++ c).
Proof. induction a as [|x a IH]; simpl; [reflexivity | now rewrite IH]. Qed.

Lemma truthy_false_empty (s : string) : truthy s = false -> s = "".
Proof. destruct s; [reflexivity | discriminate]. Qed.

Lemma toString_inj (a b : Z) : toString a = toString b -> a = b.
Proof.
  unfold toString. intros H.
  apply (f_equal NilEmpty.int_of_string) in H.
  rewrite !NilEmpty.isi in H.
  injection H as H.
  apply (f_equal Z.of_int) in H.
  now rewrite !DecimalZ.of_to in H.
Qed.

(** ** The message list under the state updates *)

Section CurrentMessages.

Variable st : AppState.

Lemma getCurrent_setCurrent (action : list Message -> list Message) :
  getCurrentMessages (setCurrentMessages (activeView st) action st)
  = action (getCurrentMessages st).
Proof.
  unfold getCurrentMessages, setCurrentMessages.
  destruct (isCode (activeView st)) eqn:E; simpl; now rewrite E.
Qed.

Lemma activeView_setCurrent (v : ViewMode) (action : list Message -> list Message) :
  activeView (setCurrentMessages v action st) = activeView st.
Proof. unfold setCurrentMessages. now destruct (isCode v). Qed.

Lemma getCurrent_setIsLoading (b : bool) :
  getCurrentMessages (setIsLoading b st) = getCurrentMessages st.
Proof. reflexivity. Qed.

Lemma getCurrent_optimisticUpdate (now : Clock) :
  getCurrentMessages (optimisticUpdate now st)
  = (getCurrentMessages st
       ++ [mkMessage (toString (now1 now)) USER (trim (input st)) (now2 now)
             None (Some (attachments st));
           placeholderWith now "" None])%list.
Proof.
  unfold optimisticUpdate, getCurrentMessages, setCurrentMessages.
  destruct (isCode (activeView st)) eqn:E; simpl; now rewrite E.
Qed.

Lemma activeView_optimisticUpdate (now : Clock) :
  activeView (optimisticUpdate now st) = activeView st.
Proof.
  unfold optimisticUpdate, setCurrentMessages.
  now destruct (isCode (activeView st)).
Qed.

End CurrentMessages.

Lemma withContent_id (pid t : string) (m : Message) :
  id (withContent pid t m) = id m.
Proof. unfold withContent. now destruct (String.eqb (id m) pid). Qed.

Lemma withFailure_id (pid : string) (m : Message) :
  id (withFailure pid m) = id m.
Proof. unfold withFailure. now destruct (String.eqb (id m) pid). Qed.

Lemma withContent_placeholder (pid t c : string) r ts e a :
  withContent pid t (mkMessage pid r c ts e a) = mkMessage pid r t ts e a.
Proof. unfold withContent. simpl. now rewrite String.eqb_refl. Qed.

Lemma withFailure_placeholder (pid c : string) r ts e a :
  withFailure pid (mkMessage pid r c ts e a)
  = mkMessage pid r failureText ts (Some true) a.
Proof. unfold withFailure. simpl. now rewrite String.eqb_refl. Qed.

(** Publishing the same text twice is publishing it once. *)
Lemma withContent_idempotent (pid t : string) (l : list Message) :
  map (withContent pid t) (map (withContent pid t) l)
  = map (withContent pid t) l.
Proof.
  rewrite map_map. apply map_ext. intros m.
  unfold withContent at 2.
  destruct (String.eqb (id m) pid) eqn:E.
  - unfold withContent. simpl. now rewrite E.
  - unfold withContent. now rewrite E.
Qed.

(** *** The loop over the chunks *)

Lemma consume_text (v : ViewMode) (pid : string) cs :
  forall acc st, fst (consume v pid cs acc st) = acc ++ concatTexts cs.
Proof.
  induction cs as [|c cs IH]; intros acc st; simpl.
  - now rewrite append_nil_r.
  - unfold textOf. destruct (text c) as [t|]; simpl.
    + destruct (truthy t) eqn:T.
      * rewrite IH. apply append_assoc.
      * rewrite IH. now rewrite (truthy_false_empty _ T).
    + apply IH.
Qed.

Lemma consume_activeView (v : ViewMode) (pid : string) cs :
  forall acc st, activeView (snd (consume v pid cs acc st)) = activeView st.
Proof.
  induction cs as [|c cs IH]; intros acc st; simpl; [reflexivity|].
  destruct (truthy_opt (text c)); rewrite IH;
    [apply activeView_setCurrent | reflexivity].
Qed.

(** The placeholder stays last and holds the text accumulated so far;
    the messages before it keep their number and their identifiers. *)
Lemma consume_placeholder (pid : string) r ts e a cs :
  forall acc st init,
    getCurrentMessages st = (init ++ [mkMessage pid r acc ts e a])%list ->
    exists init',
      getCurrentMessages (snd (consume (activeView st) pid cs acc st))
      = (init' ++ [mkMessage pid r (acc ++ concatTexts cs) ts e a])%list
      /\ map id init' = map id init.
Proof.
  induction cs as [|c cs IH]; intros acc st init H; simpl.
  - exists init. now rewrite append_nil_r.
  - unfold textOf. destruct (text c) as [t|]; simpl.
    + destruct (truthy t) eqn:T.
      * set (st1 := setCurrentMessages (activeView st)
                      (map (withContent pid (acc ++ t))) st).
        assert (V : activeView st1 = activeView st)
          by apply activeView_setCurrent.
        destruct (IH (acc ++ t) st1 (map (withContent pid (acc ++ t)) init))
          as [init' [H1 H2]].
        { unfold st1. rewrite getCurrent_setCurrent, H, map_app. simpl.
          now rewrite withContent_placeholder. }
        exists init'. rewrite V in H1. rewrite H1, append_assoc. split; [reflexivity|].
        rewrite H2, map_map. apply map_ext. intros m. apply withContent_id.
      * rewrite (truthy_false_empty _ T). simpl. now apply IH.
    + now apply IH.
Qed.

Lemma markFailed_placeholder (pid : string) (st : AppState) init r c ts e a :
  getCurrentMessages st = (init ++ [mkMessage pid r c ts e a])%list ->
  getCurrentMessages (markFailed (activeView st) pid st)
  = (map (withFailure pid) init
       ++ [mkMessage pid r failureText ts (Some true) a])%list.
Proof.
  intros H. unfold markFailed.
  rewrite getCurrent_setCurrent, H, map_app. simpl.
  now rewrite withFailure_placeholder.
Qed.

Lemma handleSendMessage_accepted (now : Clock) (st : AppState) (session : Chat) :
  refused st = false ->
  currentSession st = Some session ->
  handleSendMessage now st
  = setIsLoading false
      (tryExchange (activeView st) (aiPlaceholderId now) (sentBy session st)
         (optimisticUpdate now st)).
Proof.
  intros G Sess. unfold handleSendMessage, sentBy. rewrite G, Sess.
  now destruct (routeAttachments (trim (input st)) (attachments st)).
Qed.

(** The loop started on the state the optimistic update leaves. *)
Lemma consume_after_update (now : Clock) (st : AppState) cs :
  exists init,
    getCurrentMessages
      (snd (consume (activeView st) (aiPlaceholderId now) cs ""
              (optimisticUpdate now st)))
    = (init ++ [placeholderWith now (concatTexts cs) None])%list
    /\ map id init
       = (map id (getCurrentMessages st) ++ [toString (now1 now)])%list.
Proof.
  pose proof (getCurrent_optimisticUpdate st now) as H.
  change [?u; ?p] with ([u] ++ [p])%list in H. rewrite app_assoc in H.
  unfold placeholderWith in H.
  destruct (@consume_placeholder (aiPlaceholderId now) MODEL (now4 now + 1)%Z
              None None cs "" (optimisticUpdate now st) _ H)
    as [init [H1 H2]].
  rewrite activeView_optimisticUpdate in H1.
  exists init. split; [exact H1|].
  now rewrite H2, map_app.
Qed.

(** C1. A successful exchange: after any number of the fragments have
    been consumed the placeholder shows the concatenation of these
    fragments in the order of delivery; when the stream has closed the
    stored placeholder holds the concatenation of all of them, with no
    error flag; and publishing a text a second time changes nothing. *)
Theorem stream_success_aggregates (now : Clock) (st : AppState)
    (session : Chat) (stream : ResponseStream) :
  refused st = false ->
  currentSession st = Some session ->
  sentBy session st = Ok stream ->
  thrown stream = None ->
  (forall k, exists init,
      getCurrentMessages
        (snd (consume (activeView st) (aiPlaceholderId now)
                (firstn k (chunks stream)) "" (optimisticUpdate now st)))
      = (init ++ [placeholderWith now (concatTexts (firstn k (chunks stream))) None])%list
      /\ List.length init = S (List.length (getCurrentMessages st)))
  /\ (exists init,
      getCurrentMessages (handleSendMessage now st)
      = (init ++ [placeholderWith now (concatTexts (chunks stream)) None])%list
      /\ List.length init = S (List.length (getCurrentMessages st)))
  /\ (forall t l,
      map (withContent (aiPlaceholderId now) t)
        (map (withContent (aiPlaceholderId now) t) l)
      = map (withContent (aiPlaceholderId now) t) l).
Proof.
  intros G Sess Sent Closed.
  assert (L : forall init : list Message,
             map id init
             = (map id (getCurrentMessages st) ++ [toString (now1 now)])%list ->
             List.length init = S (List.length (getCurrentMessages st))).
  { intros init E. apply (f_equal (@List.length string)) in E.
    rewrite length_app in E. rewrite !length_map in E. simpl in E. lia. }
  split; [|split].
  - intros k.
    destruct (consume_after_update now st (firstn k (chunks stream)))
      as [init [H1 H2]].
    exists init. split; [exact H1 | now apply L].
  - rewrite (handleSendMessage_accepted now st G Sess), Sent.
    unfold tryExchange. rewrite Closed, getCurrent_setIsLoading.
    destruct (consume_after_update now st (chunks stream)) as [init [H1 H2]].
    exists init. split; [exact H1 | now apply L].
  - intros t l. apply withContent_idempotent.
Qed.

(** C2. A failed exchange: whether the request throws or the stream
    throws after any number of fragments, the placeholder ends with the
    fixed failure text as its content, whatever had been aggregated, and
    with its error flag set. *)
Theorem stream_failure_discards (now : Clock) (st : AppState)
    (session : Chat) :
  refused st = false ->
  currentSession st = Some session ->
  exchangeFails (sentBy session st) = true ->
  exists init,
    getCurrentMessages (handleSendMessage now st)
    = (init ++ [placeholderWith now failureText (Some true)])%list
    /\ List.length init = S (List.length (getCurrentMessages st)).
Proof.
  intros G Sess F.
  rewrite (handleSendMessage_accepted now st G Sess), getCurrent_setIsLoading.
  unfold tryExchange, exchangeFails in *.
  destruct (sentBy session st) as [stream | e].
  - destruct (thrown stream) as [e|]; [|discriminate].
    destruct (consume_after_update now st (chunks stream)) as [init [H1 H2]].
    set (st' := snd (consume (activeView st) (aiPlaceholderId now)
                       (chunks stream) "" (optimisticUpdate now st))) in *.
    assert (V : activeView st = activeView st').
    { unfold st'. now rewrite consume_activeView, activeView_optimisticUpdate. }
    rewrite V. unfold placeholderWith in H1.
    erewrite markFailed_placeholder by exact H1.
    exists (map (withFailure (aiPlaceholderId now)) init). split; [reflexivity|].
    apply (f_equal (@List.length string)) in H2.
    rewrite length_app in H2. rewrite !length_map in *. simpl in H2. lia.
  - pose proof (getCurrent_optimisticUpdate st now) as H.
    change [?u; ?p] with ([u] ++ [p])%list in H. rewrite app_assoc in H.
    unfold placeholderWith in H.
    rewrite <- (activeView_optimisticUpdate st now).
    erewrite markFailed_placeholder by exact H.
    eexists. split; [reflexivity|].
    rewrite length_map, length_app. simpl. lia.
Qed.

(** ** [generateImage]: retries *)

Section Retry.

Variable generateContent :
  nat -> GenerateContentParameters -> result JsError GenerateContentResponse.
Variable prompt : string.
Variable model : ImageModel.

Lemma attemptGenerate_stops (retryCount : nat) :
  (retryCount = 3 \/ quotaFailure (generateContent retryCount (imageRequest prompt model)) = false) ->
  attemptGenerate generateContent prompt model retryCount
  = (outcomeOf (generateContent retryCount (imageRequest prompt model)),
     [CallGenerateContent (imageRequest prompt model)]).
Proof.
  intros H. simp attemptGenerate.
  destruct (generateContent retryCount (imageRequest prompt model)) as [r | e] eqn:E; simpl.
  - reflexivity.
  - unfold attemptGenerate_unfold_clause_1_clause_2.
    destruct (is429 e) eqn:Q, (lt_dec retryCount 3) as [L | L];
      simpl; try reflexivity.
    destruct H as [H | H]; [lia | simpl in H; congruence].
Qed.

Lemma attemptGenerate_retries (retryCount : nat) :
  retryCount < 3 ->
  quotaFailure (generateContent retryCount (imageRequest prompt model)) = true ->
  attemptGenerate generateContent prompt model retryCount
  = (fst (attemptGenerate generateContent prompt model (retryCount + 1)),
     CallGenerateContent (imageRequest prompt model)
       :: SetTimeout ((Z.of_nat retryCount + 1) * 2000)
       :: snd (attemptGenerate generateContent prompt model (retryCount + 1))).
Proof.
  intros L H. simp attemptGenerate.
  destruct (generateContent retryCount (imageRequest prompt model)) as [r | e] eqn:E; simpl in *.
  - discriminate.
  - rewrite H. unfold attemptGenerate_unfold_clause_1_clause_2.
    destruct (lt_dec retryCount 3) as [L' | L']; simpl.
    + simp attemptGenerate. reflexivity.
    + contradiction.
Qed.

(** From the attempt [retryCount], [count] quota errors in a row and
    then an attempt that ends the call. *)
Lemma attemptGenerate_run (count : nat) :
  forall retryCount,
    retryCount + count <= 3 ->
    (forall n, retryCount <= n < retryCount + count ->
               quotaFailure (generateContent n (imageRequest prompt model)) = true) ->
    (retryCount + count = 3
     \/ quotaFailure (generateContent (retryCount + count) (imageRequest prompt model)) = false) ->
    attemptGenerate generateContent prompt model retryCount
    = (outcomeOf (generateContent (retryCount + count) (imageRequest prompt model)),
       retryLog (imageRequest prompt model) retryCount count).
Proof.
  induction count as [|count IH]; intros retryCount B Q Stop.
  - rewrite Nat.add_0_r in *. now apply attemptGenerate_stops.
  - rewrite attemptGenerate_retries; [| lia | apply Q; lia].
    replace (retryCount + S count) with ((retryCount + 1) + count) in * by lia.
    rewrite (IH (retryCount + 1)); [| lia | intros n Hn; apply Q; lia | exact Stop].
    simpl. now replace (retryCount + 1) with (S retryCount) by lia.
Qed.

End Retry.

Lemma retryLog_delays (request : GenerateContentParameters) (k : nat) :
  k <= 3 -> delays (retryLog request 0 k) = firstn k [2000; 4000; 6000]%Z.
Proof.
  intros H. destruct k as [|[|[|[|k]]]]; try reflexivity. lia.
Qed.

Lemma retryLog_calls (request : GenerateContentParameters) (count : nat) :
  forall from,
    List.length (filter isGenerateContent (retryLog request from count))
    = S count.
Proof.
  induction count as [|count IH]; intros from; simpl; [reflexivity|].
  now rewrite IH.
Qed.

(** C4. Let the attempts numbered below [k] (at most 3) all end with a
    quota error, and let the attempt [k] be the fourth one or end
    otherwise (a response, or an error of another class). Then
    [generateImage] makes exactly [k + 1] requests, waits 2000 ms, 4000 ms,
    ... between them ([k] delays), and returns what the attempt [k] gives:
    its image, or its error thrown again. With [k = 3] these are the three
    retries after which the failure of the fourth attempt propagates; with
    [k = 0] an error of another class propagates at once. *)
Theorem generateImage_retry_policy
    (generateContent :
       nat -> GenerateContentParameters -> result JsError GenerateContentResponse)
    (prompt : string) (model : ImageModel) (k : nat) :
  k <= 3 ->
  (forall n, n < k ->
     quotaFailure (generateContent n (imageRequest prompt model)) = true) ->
  (k = 3 \/ quotaFailure (generateContent k (imageRequest prompt model)) = false) ->
  generateImage generateContent prompt model
  = (outcomeOf (generateContent k (imageRequest prompt model)),
     retryLog (imageRequest prompt model) 0 k)
  /\ delays (snd (generateImage generateContent prompt model))
     = firstn k [2000; 4000; 6000]%Z
  /\ List.length (filter isGenerateContent
                    (snd (generateImage generateContent prompt model)))
     = S k.
Proof.
  intros B Q Stop.
  assert (E : generateImage generateContent prompt model
              = (outcomeOf (generateContent k (imageRequest prompt model)),
                 retryLog (imageRequest prompt model) 0 k)).
  { unfold generateImage.
    apply (@attemptGenerate_run generateContent prompt model k 0);
      [exact B | intros n Hn; apply Q; lia | exact Stop]. }
  rewrite E. simpl. repeat split.
  - now apply retryLog_delays.
  - apply retryLog_calls.
Qed.

(** ** [generateImage]: the value returned *)

Lemma firstInlineImage_none (ps : list Part) :
  Forall (fun p => hasInlineImage p = false) ps ->
  firstInlineImage ps = None.
Proof.
  induction 1 as [|p ps Hp _ IH]; simpl; [reflexivity|].
  unfold hasInlineImage in Hp.
  destruct (part_inlineData p) as [b|]; [|exact IH].
  destruct (blob_data b) as [d|]; [|exact IH].
  simpl in Hp. now rewrite Hp.
Qed.

Lemma firstInlineImage_found (before after : list Part) (p : Part) :
  Forall (fun p => hasInlineImage p = false) before ->
  hasInlineImage p = true ->
  firstInlineImage (before ++ p :: after) = Some (dataUriOf p).
Proof.
  intros Hb Hp. induction Hb as [|q before Hq _ IH]; simpl.
  - unfold hasInlineImage, dataUriOf in *.
    destruct (part_inlineData p) as [b|]; [|discriminate].
    destruct (blob_data b) as [d|]; [|discriminate].
    simpl in Hp. rewrite Hp. unfold or_else.
    now destruct (blob_mimeType b).
  - unfold hasInlineImage in Hq.
    destruct (part_inlineData q) as [b|]; [|exact IH].
    destruct (blob_data b) as [d|]; [|exact IH].
    simpl in Hq. now rewrite Hq.
Qed.

Lemma imageOfResponse_firstParts (r : GenerateContentResponse) :
  imageOfResponse r = firstInlineImage (firstParts r).
Proof.
  unfold imageOfResponse, firstParts, partsOf, item.
  destruct (candidates r) as [[|c cs]|]; simpl; try reflexivity.
  destruct (cand_content c) as [ct|]; [|reflexivity].
  now destruct (parts ct).
Qed.

Lemma firstParts_allParts (r : GenerateContentResponse) :
  exists rest, allParts r = (firstParts r ++ rest)%list.
Proof.
  unfold allParts, firstParts.
  destruct (candidates r) as [[|c cs]|]; simpl; eauto.
Qed.

(** C10. When an attempt is answered (the first one, or a later one
    after quota errors), [generateImage] returns without throwing. It
    returns [null] when no part of any candidate carries inline data;
    when a part of the first candidate carries inline data, it returns
    the data URI of the first such part, made of the MIME type of the
    part, or [image/png] when the part has none, and of its data. *)
Theorem generateImage_null_or_data_uri
    (generateContent :
       nat -> GenerateContentParameters -> result JsError GenerateContentResponse)
    (prompt : string) (model : ImageModel) (k : nat)
    (r : GenerateContentResponse) :
  k <= 3 ->
  (forall n, n < k ->
     quotaFailure (generateContent n (imageRequest prompt model)) = true) ->
  generateContent k (imageRequest prompt model) = Ok r ->
  fst (generateImage generateContent prompt model) = Ok (imageOfResponse r)
  /\ (Forall (fun p => hasInlineImage p = false) (allParts r) ->
      fst (generateImage generateContent prompt model) = Ok None)
  /\ (forall before p after,
        firstParts r = (before ++ p :: after)%list ->
        Forall (fun p => hasInlineImage p = false) before ->
        hasInlineImage p = true ->
        fst (generateImage generateContent prompt model)
        = Ok (Some (dataUriOf p)))
  /\ (forall d,
        dataUriOf (mkPart (Some (mkBlob (Some d) None)) None)
        = "data:image/png;base64," ++ d).
Proof.
  intros B Q H.
  assert (E : fst (generateImage generateContent prompt model)
              = Ok (imageOfResponse r)).
  { unfold generateImage.
    rewrite (@attemptGenerate_run generateContent prompt model k 0);
      [simpl; now rewrite H | exact B | intros n Hn; apply Q; lia
      | right; simpl; now rewrite H]. }
  rewrite E, imageOfResponse_firstParts.
  split; [reflexivity|]. split; [|split].
  - intros N. destruct (firstParts_allParts r) as [rest A].
    rewrite A in N. apply Forall_app in N.
    now rewrite firstInlineImage_none.
  - intros before p after F Hb Hp. rewrite F.
    now rewrite firstInlineImage_found.
  - reflexivity.
Qed.

(** ** [generateVeoVideo]: the polling loop *)

Section Polling.

Variable generateVideos :
  GenerateVideosParameters -> result JsError Operation.
Variable getVideosOperation : nat -> Operation -> result JsError Operation.

(** From an operation that is not done, polls that give the operations
    [pending], none of them done, and then [final], which is done: the
    loop returns [final] once the fuel exceeds the number of pending
    answers, and is still running with any smaller fuel. *)
Lemma pollUntilDone_run (pending : list Operation) (final : Operation) :
  forall polls operation fuel,
    isDone operation = false ->
    Forall (fun o => isDone o = false) pending ->
    isDone final = true ->
    pollsReturn getVideosOperation polls operation (pending ++ [final])%list ->
    (List.length pending < fuel ->
     pollUntilDone getVideosOperation fuel polls operation
     = Some (Ok final, pollLog operation (pending ++ [final])%list))
    /\ (fuel <= List.length pending ->
        pollUntilDone getVideosOperation fuel polls operation = None).
Proof.
  induction pending as [|o pending IH];
    intros polls operation fuel N P D R; simpl in *.
  - destruct R as [R _]. split; intros F.
    + destruct fuel as [|fuel]; [lia|]. simpl. rewrite N, R.
      destruct fuel; simpl; now rewrite D.
    + assert (fuel = 0) by lia. subst. simpl. now rewrite N.
  - destruct R as [R1 R]. inversion P as [|? ? No P']; subst.
    split; intros F.
    + destruct fuel as [|fuel]; [lia|]. simpl. rewrite N, R1.
      destruct (IH (S polls) o fuel No P' D R) as [I _].
      rewrite I by lia. reflexivity.
    + destruct fuel as [|fuel]; simpl; rewrite N; [reflexivity|].
      rewrite R1.
      destruct (IH (S polls) o fuel No P' D R) as [_ I].
      now rewrite I by lia.
Qed.

Lemma pollLog_polls (ops : list Operation) :
  forall operation,
    List.length (filter isPoll (pollLog operation ops)) = List.length ops.
Proof.
  induction ops as [|o ops IH]; intros operation; simpl; [reflexivity|].
  now rewrite IH.
Qed.

Lemma pollLog_delays (ops : list Operation) :
  forall operation,
    delays (pollLog operation ops) = repeat 5000%Z (List.length ops).
Proof.
  induction ops as [|o ops IH]; intros operation; simpl; [reflexivity|].
  now rewrite IH.
Qed.

(** A delay comes right before every poll, and nothing else is logged. *)
Lemma pollLog_alternates (ops : list Operation) :
  forall operation,
    exists asked,
      pollLog operation ops
      = flat_map (fun o => [SetTimeout 5000; CallGetVideosOperation o]) asked
      /\ List.length asked = List.length ops.
Proof.
  induction ops as [|o ops IH]; intros operation; simpl.
  - now exists [].
  - destruct (IH o) as [asked [E L]].
    exists (operation :: asked). simpl. now rewrite E, L.
Qed.

(** An operation that is never done keeps the loop running. *)
Lemma pollUntilDone_never_done :
  (forall n o, exists o', getVideosOperation n o = Ok o' /\ isDone o' = false) ->
  forall fuel polls operation,
    isDone operation = false ->
    pollUntilDone getVideosOperation fuel polls operation = None.
Proof.
  intros Stuck. induction fuel as [|fuel IH]; intros polls operation N; simpl.
  - now rewrite N.
  - rewrite N. destruct (Stuck polls operation) as [o' [E N']].
    now rewrite E, IH.
Qed.

End Polling.

(** C5. Let the submitted operation not be done, let the polls give the
    operations [pending], none of them done, and then [final], which is
    done. The loop makes one poll for each of these answers, each right
    after a delay of 5000 ms, and stops there; the link returned is taken
    from [final]. With three pending answers these are four polls, the
    result coming from the fourth. The number of polls only depends on
    the answers: whatever the length of [pending], the loop is still
    running after that many polls, and no bound ends it before. *)
Theorem generateVeoVideo_polls_until_done
    (generateVideos : GenerateVideosParameters -> result JsError Operation)
    (getVideosOperation : nat -> Operation -> result JsError Operation)
    (env : Env) (prompt : string) (aspectRatio : AspectRatio)
    (submitted : Operation) (pending : list Operation) (final : Operation) :
  generateVideos (videoRequest prompt aspectRatio) = Ok submitted ->
  isDone submitted = false ->
  Forall (fun o => isDone o = false) pending ->
  isDone final = true ->
  pollsReturn getVideosOperation 0 submitted (pending ++ [final])%list ->
  let log := pollLog submitted (pending ++ [final])%list in
  (forall fuel, List.length pending < fuel ->
     generateVeoVideo generateVideos getVideosOperation fuel env prompt aspectRatio
     = Some (Ok (videoLink env final),
             CallGenerateVideos (videoRequest prompt aspectRatio) :: log))
  /\ (forall fuel, fuel <= List.length pending ->
        generateVeoVideo generateVideos getVideosOperation fuel env prompt aspectRatio
        = None)
  /\ List.length (filter isPoll log) = S (List.length pending)
  /\ delays log = repeat 5000%Z (S (List.length pending))
  /\ (exists asked,
        log = flat_map (fun o => [SetTimeout 5000; CallGetVideosOperation o]) asked
        /\ List.length asked = S (List.length pending)).
Proof.
  intros Sub N P D R log.
  assert (Len : List.length (pending ++ [final])%list = S (List.length pending))
    by (rewrite length_app; simpl; lia).
  split; [|split; [|split; [|split]]].
  - intros fuel F. unfold generateVeoVideo. rewrite Sub.
    destruct (@pollUntilDone_run getVideosOperation pending final 0 submitted fuel N P D R)
      as [I _].
    now rewrite I.
  - intros fuel F. unfold generateVeoVideo. rewrite Sub.
    destruct (@pollUntilDone_run getVideosOperation pending final 0 submitted fuel N P D R)
      as [_ I].
    now rewrite I.
  - unfold log. now rewrite pollLog_polls.
  - unfold log. now rewrite pollLog_delays, Len.
  - destruct (pollLog_alternates (pending ++ [final])%list submitted)
      as [asked [E L]].
    exists asked. now rewrite <- Len.
Qed.

(** ** [sendMessageStream]: the payload *)

Lemma sendMessageStream_payload (chat : Chat) (message : string)
    (atts : list InlineAttachment) :
  sendMessageStream chat message atts
  = chat_sendMessageStream chat (messagePayload message atts).
Proof.
  unfold sendMessageStream.
  now destruct (chat_sendMessageStream chat (messagePayload message atts)).
Qed.

(** With at least one attachment the payload is the list of the inline
    parts, one for each attachment in the order given, and then one text
    part holding the message. *)
Lemma messagePayload_parts (message : string) (atts : list InlineAttachment) :
  atts <> [] ->
  messagePayload message atts
  = PayloadParts (map inlinePart atts ++ [textPart message])%list.
Proof.
  intros H. unfold messagePayload.
  destruct atts as [|a atts]; [contradiction | reflexivity].
Qed.

Lemma messagePayload_text (message : string) :
  messagePayload message [] = PayloadString message.
Proof. reflexivity. Qed.

(** What the session is asked by [handleSendMessage]. *)
Lemma sentBy_payload (session : Chat) (st : AppState) :
  sentBy session st
  = chat_sendMessageStream session
      (messagePayload
         (fst (routeAttachments (trim (input st)) (attachments st)))
         (snd (routeAttachments (trim (input st)) (attachments st)))).
Proof. unfold sentBy. apply sendMessageStream_payload. Qed.

Lemma split_commaFree (s : string) :
  commaFree s = true -> split ","%char s = [s].
Proof.
  induction s as [|c s IH]; simpl; [reflexivity|].
  intros H. apply andb_prop in H. destruct H as [H1 H2].
  apply negb_true_iff in H1. rewrite H1, IH by exact H2. reflexivity.
Qed.

Lemma split_prefix (p rest : string) :
  commaFree p = true ->
  split ","%char (p ++ "," ++ rest) = p :: split ","%char rest.
Proof.
  induction p as [|c p IH]; simpl; [reflexivity|].
  intros H. apply andb_prop in H. destruct H as [H1 H2].
  apply negb_true_iff in H1. rewrite H1. simpl in IH.
  now rewrite IH by exact H2.
Qed.

(** The data of a data URL, a prefix without a comma, a comma and a
    payload without a comma (as Base64 is), is sent as its payload. *)
Lemma inlinePart_dataURL (p payload mime : string) :
  commaFree p = true ->
  commaFree payload = true ->
  inlinePart (mkInline (p ++ "," ++ payload) mime)
  = mkPart (Some (mkBlob (Some payload) (Some mime))) None.
Proof.
  intros Hp Hb. unfold inlinePart. cbn [ia_data].
  now rewrite split_prefix, split_commaFree.
Qed.

(** Data without a comma, such as bare Base64, is sent as [undefined]. *)
Lemma inlinePart_commaFree (data mime : string) :
  commaFree data = true ->
  inlinePart (mkInline data mime)
  = mkPart (Some (mkBlob None (Some mime))) None.
Proof.
  intros H. unfold inlinePart. cbn [ia_data].
  now rewrite split_commaFree.
Qed.

(** Bare Base64, which no caller passes, beside a data URL. *)
Remark messagePayload_bare_base64 :
  messagePayload "hello" [mkInline "AAAA" "image/png"]
  = PayloadParts
      [mkPart (Some (mkBlob None (Some "image/png"))) None; textPart "hello"]
  /\ messagePayload "hello" [mkInline "data:image/png;base64,AAAA" "image/png"]
     = PayloadParts
         [mkPart (Some (mkBlob (Some "AAAA") (Some "image/png"))) None;
          textPart "hello"].
Proof. split; reflexivity. Qed.

Lemma inlinePart_of_data_url (d : DataUrl) :
  dataUrlOk d = true ->
  inlinePart (attachmentOfDataUrl d) = inlinePartOfDataUrl d.
Proof.
  unfold dataUrlOk, attachmentOfDataUrl, inlinePartOfDataUrl. intros H.
  apply andb_prop in H. destruct H as [H1 H2].
  now apply inlinePart_dataURL.
Qed.

(** C3. For every list, not empty, of attachments whose data are data
    URLs, [sendMessageStream] asks the session with one inline part for
    each attachment, in the order of the list, holding the payload of the
    data URL without its prefix and the MIME type of the attachment, and
    then one text part holding the message. *)
Theorem sendMessageStream_sends_data_urls (chat : Chat) (message : string)
    (urls : list DataUrl) :
  urls <> [] ->
  Forall (fun d => dataUrlOk d = true) urls ->
  sendMessageStream chat message (map attachmentOfDataUrl urls)
  = chat_sendMessageStream chat
      (PayloadParts
         (map inlinePartOfDataUrl urls ++ [mkPart None (Some message)])%list).
Proof.
  intros N F. rewrite sendMessageStream_payload, messagePayload_parts.
  - rewrite map_map. f_equal. f_equal. f_equal.
    apply map_ext_in. intros d I. apply inlinePart_of_data_url.
    rewrite Forall_forall in F. now apply F.
  - destruct urls; [contradiction | discriminate].
Qed.

(** ** [handleSendMessage]: where an attachment goes *)

Lemma routeAttachments_fold (atts : list Attachment) :
  forall userMessageText inlineAttachments,
    fold_left routeAttachment atts (userMessageText, inlineAttachments)
    = (userMessageText ++ concatAll (map promptText (filter isPromptText atts)),
       (inlineAttachments ++ map toInline (filter isInline atts))%list).
Proof.
  induction atts as [|a atts IH]; intros t l; simpl.
  - now rewrite append_nil_r, app_nil_r.
  - unfold isPromptText at 1. destruct (isInline a) eqn:E; simpl; rewrite IH.
    + now rewrite <- app_assoc.
    + unfold promptText at 2. now rewrite !append_assoc.
Qed.

Lemma isInline_binaryKind (a : Attachment) :
  isInline a = binaryKind (att_type a).
Proof. unfold isInline. now destruct (att_type a). Qed.

Lemma routeAttachments_split (userMessageText : string)
    (atts : list Attachment) :
  routeAttachments userMessageText atts
  = (promptOf userMessageText atts, map toInline (binariesOf atts)).
Proof.
  assert (F1 : filter isPromptText atts = textsOf atts).
  { apply filter_ext. intros a. unfold isPromptText.
    now rewrite isInline_binaryKind. }
  assert (F2 : filter isInline atts = binariesOf atts).
  { apply filter_ext. intros a. apply isInline_binaryKind. }
  unfold routeAttachments. rewrite routeAttachments_fold, F1, F2.
  reflexivity.
Qed.

(** What the session is asked by [handleSendMessage]. *)
Lemma sentBy_expected (session : Chat) (st : AppState) :
  sentBy session st
  = chat_sendMessageStream session
      (expectedPayload (trim (input st)) (App.attachments st)).
Proof.
  rewrite sentBy_payload, routeAttachments_split. cbn [fst snd].
  unfold messagePayload, expectedPayload.
  destruct (binariesOf (App.attachments st)) as [|b bs]; [reflexivity|].
  cbn [map List.length Nat.ltb Nat.leb]. rewrite map_map. reflexivity.
Qed.

(** C6. In a send that is accepted the session is asked once, with a
    request in which every attachment has taken one path, chosen by its
    kind alone: each image, video or PDF attachment is an inline part,
    in the order of the attachments, and is not among those appended to
    the text; each text, code or archive attachment is appended to the
    message text, after two line feeds, in the order of the attachments,
    and is no inline part. Without a binary attachment the request is that text
    alone. What the exchange then does comes from the answer to this
    request. *)
Theorem attachments_take_one_path (now : Clock) (st : AppState)
    (session : Chat) :
  refused st = false ->
  currentSession st = Some session ->
  let sent :=
    chat_sendMessageStream session
      (expectedPayload (trim (input st)) (App.attachments st)) in
  sentBy session st = sent
  /\ handleSendMessage now st
     = setIsLoading false
         (tryExchange (activeView st) (aiPlaceholderId now) sent
            (optimisticUpdate now st))
  /\ (forall a,
        In a (App.attachments st) ->
        (binaryKind (att_type a) = true
         /\ In a (binariesOf (App.attachments st))
         /\ ~ In a (textsOf (App.attachments st)))
        \/ (binaryKind (att_type a) = false
            /\ In a (textsOf (App.attachments st))
            /\ ~ In a (binariesOf (App.attachments st)))).
Proof.
  intros G Sess sent.
  assert (E : sentBy session st = sent) by apply sentBy_expected.
  split; [exact E|]. split.
  - rewrite <- E. now apply handleSendMessage_accepted.
  - intros a I. unfold binariesOf, textsOf.
    destruct (binaryKind (att_type a)) eqn:K; [left | right];
      (split; [reflexivity|]); split.
    + apply filter_In. now split.
    + intros X. apply filter_In in X. destruct X as [_ X].
      rewrite K in X. discriminate.
    + apply filter_In. split; [exact I | now rewrite K].
    + intros X. apply filter_In in X. destruct X as [_ X]. congruence.
Qed.

(** ** [createChatSession]: the credential *)

(** C7, as amended. Without a credential the client is built with the
    empty string as its key, as it is with an empty credential; the
    function checks nothing itself: it fails when the constructor of the
    client or [chats.create] throws for this key, with what they throw,
    and returns the session otherwise. *)
Theorem createChatSession_absent_credential (Client : Type)
    (GoogleGenAI : ClientOptions -> result JsError Client)
    (chats_create : Client -> ChatCreateParameters -> result JsError Chat)
    (model : ModelType) (systemInstruction : option string) :
  createChatSession GoogleGenAI chats_create (mkEnv None) model systemInstruction
  = createChatSession GoogleGenAI chats_create (mkEnv (Some "")) model
      systemInstruction
  /\ (forall e,
        GoogleGenAI (mkClientOptions "") = Err e ->
        createChatSession GoogleGenAI chats_create (mkEnv None) model
          systemInstruction
        = Err e)
  /\ (forall ai,
        GoogleGenAI (mkClientOptions "") = Ok ai ->
        exists params,
          cc_model params = model
          /\ cc_history params = []
          /\ createChatSession GoogleGenAI chats_create (mkEnv None) model
               systemInstruction
             = chats_create ai params).
Proof.
  split; [reflexivity|]. split.
  - intros e H. unfold createChatSession, getClient. simpl. now rewrite H.
  - intros ai H. unfold createChatSession, getClient. simpl. rewrite H.
    eexists. split; [|split; [|reflexivity]]; reflexivity.
Qed.

(** C7, as stated, fails: with an SDK that takes any key, a session is
    created although no credential is configured. *)
Lemma createChatSession_no_credential_succeeds :
  createChatSession lenientClient lenientCreate (mkEnv None) FLASH None
  = Ok idleChat
  /\ ~ (exists e,
          createChatSession lenientClient lenientCreate (mkEnv None) FLASH None
          = Err e).
Proof.
  split; [reflexivity|]. intros [e H]. discriminate H.
Qed.

(** ** [handleFileSelect]: archives *)

Lemma extractEntries_first (entries : ZipFiles) :
  forall extractedText fileCount room,
    fileCount + room = 51 ->
    Forall readable (firstn room (filter qualifies entries)) ->
    extractEntries entries extractedText fileCount
    = Ok (extractedText
            ++ concatAll (map blockOf (firstn room (filter qualifies entries))),
          fileCount + List.length (firstn room (filter qualifies entries))).
Proof.
  induction entries as [|[path entry] entries IH];
    intros extractedText fileCount room B R.
  - simpl. rewrite firstn_nil. simpl. now rewrite append_nil_r, Nat.add_0_r.
  - cbn [extractEntries].
    destruct (Nat.ltb 50 fileCount) eqn:L.
    + apply Nat.ltb_lt in L.
      assert (room = 0) by lia. subst room.
      simpl. now rewrite append_nil_r, Nat.add_0_r.
    + apply Nat.ltb_ge in L.
      assert (Q : qualifies (path, entry)
                  = negb (dir entry)
                    && matchesExtension archiveTextExtensions path)
        by reflexivity.
      simpl filter in *. rewrite Q in *. clear Q.
      destruct (dir entry); cbn [negb andb] in *.
      * now apply IH.
      * destruct (matchesExtension archiveTextExtensions path).
        -- destruct room as [|room]; [exfalso; lia|].
           cbn [firstn] in *. inversion R as [|? ? [content C] R']; subst.
           cbn [snd] in C. rewrite C.
           rewrite (IH _ (fileCount + 1) room) by (lia || exact R').
           unfold blockOf at 2. cbn [fst snd map concatAll List.length].
           rewrite C, append_assoc.
           f_equal. f_equal. lia.
        -- now apply IH.
Qed.

(** C8. A file handled by the archive branch, whose archive loads and
    whose members taken can be read, gives one attachment of kind [zip],
    sent as text. Its content is a header with the name of the archive
    followed, for each of the first 51 members that are not directories
    and have the extension of a text file, in the order of the archive,
    by the content of the member between a start marker carrying its path
    and an end marker. The other members add nothing, and no more than
    these 51 members (about 50) are taken. *)
Theorem zip_becomes_one_text_attachment (file : File) (c : FileContents)
    (entries : ZipFiles) :
  zipBranch file = true ->
  asZip c = Ok entries ->
  Forall readable (firstn 51 (filter qualifies entries)) ->
  let included := firstn 51 (filter qualifies entries) in
  attachmentOfFile file c
  = Some (mkAttachment (file_name file)
            (archiveHeader (file_name file) ++ concatAll (map blockOf included))
            "application/zip" T_zip (Some (file_size file)))
  /\ isInline (mkAttachment (file_name file)
                 (archiveHeader (file_name file) ++ concatAll (map blockOf included))
                 "application/zip" T_zip (Some (file_size file)))
     = false
  /\ List.length included <= 51
  /\ (forall path content,
        blockOf (path, mkZipEntry false (Ok content))
        = LF ++ "--- START FILE: " ++ path ++ " ---" ++ LF ++ content ++ LF
             ++ "--- END FILE ---" ++ LF).
Proof.
  intros Z A R included.
  split; [|split; [reflexivity | split; [apply firstn_le_length | reflexivity]]].
  unfold attachmentOfFile. unfold zipBranch in Z.
  apply andb_prop in Z. destruct Z as [Z1 Z2].
  apply negb_true_iff in Z1. rewrite Z1, Z2, A.
  rewrite (extractEntries_first entries (archiveHeader (file_name file)) 0 51)
    by (reflexivity || exact R).
  reflexivity.
Qed.

(** ** Identifiers of the messages *)

Lemma tryExchange_ids (now : Clock) (st : AppState)
    (sent : result JsError ResponseStream) :
  map id (getCurrentMessages
            (tryExchange (activeView st) (aiPlaceholderId now) sent
               (optimisticUpdate now st)))
  = (map id (getCurrentMessages st)
       ++ [toString (now1 now); toString (now3 now + 1)])%list.
Proof.
  assert (F : forall st' : AppState,
             activeView st' = activeView st ->
             map id (getCurrentMessages
                       (markFailed (activeView st) (aiPlaceholderId now) st'))
             = map id (getCurrentMessages st')).
  { intros st' V. unfold markFailed. rewrite <- V, getCurrent_setCurrent, map_map.
    apply map_ext. intros m. apply withFailure_id. }
  assert (C : forall cs,
             map id (getCurrentMessages
                       (snd (consume (activeView st) (aiPlaceholderId now) cs ""
                               (optimisticUpdate now st))))
             = (map id (getCurrentMessages st)
                  ++ [toString (now1 now); toString (now3 now + 1)])%list).
  { intros cs. destruct (consume_after_update now st cs) as [init [H1 H2]].
    rewrite H1, map_app, H2, <- app_assoc. reflexivity. }
  unfold tryExchange. destruct sent as [stream | e].
  - destruct (thrown stream); [rewrite F|]; try apply C.
    now rewrite consume_activeView, activeView_optimisticUpdate.
  - rewrite F by apply activeView_optimisticUpdate.
    rewrite getCurrent_optimisticUpdate, map_app. reflexivity.
Qed.

Lemma handleSendMessage_ids (now : Clock) (st : AppState) (session : Chat) :
  refused st = false ->
  currentSession st = Some session ->
  map id (getCurrentMessages (handleSendMessage now st))
  = (map id (getCurrentMessages st)
       ++ [toString (now1 now); toString (now3 now + 1)])%list.
Proof.
  intros G Sess.
  rewrite (handleSendMessage_accepted now st G Sess), getCurrent_setIsLoading.
  apply tryExchange_ids.
Qed.

Lemma sorted_snoc2 (ns : list Z) (a b : Z) :
  StronglySorted Z.lt ns ->
  Forall (fun n => (n < a)%Z) ns ->
  (a < b)%Z ->
  StronglySorted Z.lt (ns ++ [a; b]).
Proof.
  intros S F L. induction S as [|n ns S IH Hn]; simpl.
  - repeat constructor. exact L.
  - inversion F as [|? ? Fn F']; subst.
    constructor; [now apply IH|].
    apply Forall_app. split; [exact Hn|].
    repeat constructor; lia.
Qed.

Lemma sorted_NoDup (ns : list Z) : StronglySorted Z.lt ns -> NoDup ns.
Proof.
  induction 1 as [|n ns S IH Hn]; constructor; [|exact IH].
  intros I. rewrite Forall_forall in Hn. specialize (Hn n I). lia.
Qed.

Lemma NoDup_toString (ns : list Z) : NoDup ns -> NoDup (map toString ns).
Proof.
  induction 1 as [|n ns N _ IH]; simpl; constructor; [|exact IH].
  intros I. apply in_map_iff in I. destruct I as [m [E I]].
  apply toString_inj in E. now subst.
Qed.

(** C9, as stated, fails: a send one millisecond after a send gives its
    user message the identifier of the placeholder of the first send. *)
Lemma identifiers_collide :
  map id (getCurrentMessages secondSend) = ["1000"; "1001"; "1001"; "1002"]
  /\ ~ NoDup (map id (getCurrentMessages secondSend))
  /\ ~ StronglySorted Z.lt [1000; 1001; 1001; 1002]%Z.
Proof.
  assert (E : map id (getCurrentMessages secondSend)
              = ["1000"; "1001"; "1001"; "1002"]) by reflexivity.
  split; [exact E|]. split.
  - rewrite E. intros N.
    apply NoDup_cons_iff in N. destruct N as [_ N].
    apply NoDup_cons_iff in N. destruct N as [X _].
    apply X. now left.
  - intros S.
    apply StronglySorted_inv in S. destruct S as [S _].
    apply StronglySorted_inv in S. destruct S as [_ F].
    apply Forall_inv in F. lia.
Qed.

(** ** The properties on the scenarios *)

(** "hello" with one image, answered by "Hi" and " there": the stored
    answer is "Hi there". *)
Lemma stream_success_aggregates_witness :
  refused (helloState helloChat) = false
  /\ exists init,
       getCurrentMessages (handleSendMessage (clockAt 1000) (helloState helloChat))
       = (init ++ [placeholderWith (clockAt 1000) "Hi there" None])%list
       /\ List.length init = 1.
Proof.
  split; [reflexivity|].
  assert (T := @stream_success_aggregates (clockAt 1000) (helloState helloChat)
                 helloChat (mkStream [chunkOf "Hi"; chunkOf " there"] None)
                 eq_refl eq_refl eq_refl eq_refl).
  exact (proj1 (proj2 T)).
Defined.

(** The same fragments and then a failure: they are dropped. *)
Lemma stream_failure_discards_witness :
  exchangeFails (sentBy brokenChat (helloState brokenChat)) = true
  /\ exists init,
       getCurrentMessages (handleSendMessage (clockAt 1000) (helloState brokenChat))
       = (init ++ [placeholderWith (clockAt 1000) failureText (Some true)])%list
       /\ List.length init = 1.
Proof.
  split; [reflexivity|].
  exact (@stream_failure_discards (clockAt 1000) (helloState brokenChat)
           brokenChat eq_refl eq_refl eq_refl).
Defined.

(** Four quota errors: three retries, then the error. *)
Lemma generateImage_retry_policy_witness :
  generateImage exhausted "a cat" flash_image
  = (Err quotaError,
     [CallGenerateContent (imageRequest "a cat" flash_image); SetTimeout 2000;
      CallGenerateContent (imageRequest "a cat" flash_image); SetTimeout 4000;
      CallGenerateContent (imageRequest "a cat" flash_image); SetTimeout 6000;
      CallGenerateContent (imageRequest "a cat" flash_image)]).
Proof.
  assert (T := @generateImage_retry_policy exhausted "a cat" flash_image 3
                 (le_n 3) (fun _ _ => eq_refl) (or_introl eq_refl)).
  exact (proj1 T).
Defined.

(** No candidate in the answer: [null]. *)
Lemma generateImage_null_or_data_uri_witness :
  fst (generateImage noCandidate "a cat" flash_image) = Ok None.
Proof.
  assert (Q : forall n, n < 0 ->
                quotaFailure (noCandidate n (imageRequest "a cat" flash_image))
                = true)
    by (intros n Hn; lia).
  assert (T := @generateImage_null_or_data_uri noCandidate "a cat" flash_image 0
                 (mkResponse (Some []) None) (Nat.le_0_l 3) Q eq_refl).
  exact (proj1 T).
Defined.

(** Done at the fourth poll: four polls, the link of the fourth answer. *)
Lemma generateVeoVideo_polls_until_done_witness :
  generateVeoVideo submitVideo fourthPollDone 4 (mkEnv (Some "KEY")) "a cat"
    ratio_16_9
  = Some (Ok (Some "https://v/1?alt=media&key=KEY"),
          [CallGenerateVideos (videoRequest "a cat" ratio_16_9);
           SetTimeout 5000; CallGetVideosOperation (mkOperation None None);
           SetTimeout 5000; CallGetVideosOperation pendingOperation;
           SetTimeout 5000; CallGetVideosOperation pendingOperation;
           SetTimeout 5000; CallGetVideosOperation pendingOperation])
  /\ generateVeoVideo submitVideo fourthPollDone 3 (mkEnv (Some "KEY")) "a cat"
       ratio_16_9
     = None.
Proof.
  assert (P : Forall (fun o => isDone o = false)
                [pendingOperation; pendingOperation; pendingOperation])
    by (repeat constructor).
  assert (R : pollsReturn fourthPollDone 0 (mkOperation None None)
                ([pendingOperation; pendingOperation; pendingOperation]
                   ++ [finishedOperation])%list)
    by (simpl; repeat split).
  assert (T := @generateVeoVideo_polls_until_done submitVideo fourthPollDone
                 (mkEnv (Some "KEY")) "a cat" ratio_16_9 (mkOperation None None)
                 [pendingOperation; pendingOperation; pendingOperation]
                 finishedOperation eq_refl eq_refl P eq_refl R).
  split.
  - exact (proj1 T 4 (le_n 4)).
  - exact (proj1 (proj2 T) 3 (le_n 3)).
Defined.

(** An archive with a directory, two text files and an image. *)
Lemma zip_becomes_one_text_attachment_witness :
  zipBranch siteFile = true
  /\ attachmentOfFile siteFile siteContents
     = Some (mkAttachment "site.zip"
               (archiveHeader "site.zip"
                  ++ fileBlock "site/index.html" "<p>hi</p>"
                  ++ fileBlock "site/App.TSX" "export {}")
               "application/zip" T_zip (Some 2048%Z)).
Proof.
  split; [reflexivity|].
  assert (R : Forall readable (firstn 51 (filter qualifies siteArchive))).
  { repeat constructor; eexists; reflexivity. }
  assert (T := @zip_becomes_one_text_attachment siteFile siteContents siteArchive
                 eq_refl eq_refl R).
  exact (proj1 T).
Defined.


(** ** Further properties of [src/App.tsx] *)

Lemma filterIndex_past {A : Type} (l : list A) :
  forall index i, index < i -> filterIndex index i l = l.
Proof.
  induction l as [|x l IH]; intros index i H; simpl; [reflexivity|].
  destruct (Nat.eqb_spec i index) as [E | E]; [lia|]. simpl.
  now rewrite IH by lia.
Qed.

Lemma filterIndex_cut {A : Type} (l : list A) :
  forall index i,
    i <= index ->
    filterIndex index i l
    = (firstn (index - i) l ++ skipn (S (index - i)) l)%list.
Proof.
  induction l as [|x l IH]; intros index i H; simpl.
  - now rewrite firstn_nil.
  - destruct (Nat.eqb_spec i index) as [E | E]; simpl.
    + subst. rewrite Nat.sub_diag. simpl. apply filterIndex_past. lia.
    + rewrite IH by lia.
      replace (index - i) with (S (index - S i)) by lia. reflexivity.
Qed.

(** X1. [removeAttachment] drops the attachment at the index and keeps
    the others in their order; an index outside the list drops nothing.
    Nothing else of the state changes. *)
Theorem removeAttachment_drops_one (index : nat) (st : AppState) :
  App.attachments (removeAttachment index st)
  = (firstn index (App.attachments st)
       ++ skipn (S index) (App.attachments st))%list
  /\ List.length (App.attachments (removeAttachment index st))
     = List.length (App.attachments st)
       - (if Nat.ltb index (List.length (App.attachments st)) then 1 else 0)
  /\ removeAttachment index st
     = setAttachments (App.attachments (removeAttachment index st)) st.
Proof.
  assert (E : App.attachments (removeAttachment index st)
              = (firstn index (App.attachments st)
                   ++ skipn (S index) (App.attachments st))%list).
  { unfold removeAttachment. simpl.
    rewrite filterIndex_cut by lia. now rewrite Nat.sub_0_r. }
  split; [exact E|]. split; [|reflexivity].
  rewrite E, length_app, length_firstn, length_skipn.
  destruct (Nat.ltb_spec index (List.length (App.attachments st))); lia.
Qed.

Lemma trimStartFrom_blank (s : string) :
  forall skip, blankFrom skip s = true -> trimStartFrom skip s = "".
Proof.
  induction s as [|c s IH]; intros skip H; [reflexivity|].
  cbn [blankFrom trimStartFrom] in *.
  destruct skip as [|k]; [|now apply IH].
  destruct (spaceAt (String c s)) as [|k]; [discriminate | now apply IH].
Qed.

Lemma trim_blank (s : string) : isBlank s = true -> trim s = "".
Proof.
  intros H. unfold trim, trimStart.
  now rewrite trimStartFrom_blank.
Qed.

(** X2. A send is refused, and leaves the whole state as it is, when the
    input is made of white space characters only (those of ASCII, the
    no-break space and the other spaces and line ends of Unicode) and
    nothing is attached, when an exchange is under way, or when the lane
    has no session. *)
Theorem handleSendMessage_refuses (now : Clock) (st : AppState) :
  (isBlank (input st) = true /\ App.attachments st = [])
  \/ isLoading st = true
  \/ currentSession st = None ->
  handleSendMessage now st = st.
Proof.
  intros [[B A] | [L | N]]; unfold handleSendMessage.
  - unfold refused. rewrite trim_blank by exact B.
    now rewrite A.
  - unfold refused. rewrite L. now rewrite orb_true_r.
  - rewrite N. now destruct (refused st).
Qed.

(** *** What the updates of a send keep *)

Lemma frame_setCurrent (st : AppState) (action : list Message -> list Message) :
  frame (setCurrentMessages (activeView st) action st) = frame st
  /\ composer (setCurrentMessages (activeView st) action st) = composer st.
Proof.
  unfold frame, composer, otherMessages, setCurrentMessages.
  destruct (isCode (activeView st)) eqn:E; simpl; now rewrite E.
Qed.

Lemma frame_consume (pid : string) cs :
  forall acc st,
    frame (snd (consume (activeView st) pid cs acc st)) = frame st
    /\ composer (snd (consume (activeView st) pid cs acc st)) = composer st.
Proof.
  induction cs as [|c cs IH]; intros acc st; simpl; [now split|].
  destruct (truthy_opt (text c)); [|apply IH].
  set (st1 := setCurrentMessages (activeView st)
                (map (withContent pid (acc ++ interpolate (text c)))) st).
  destruct (frame_setCurrent st
              (map (withContent pid (acc ++ interpolate (text c)))))
    as [F C].
  fold st1 in F, C.
  assert (V : activeView st1 = activeView st) by apply activeView_setCurrent.
  rewrite <- V.
  destruct (IH (acc ++ interpolate (text c)) st1) as [F' C'].
  now rewrite F', C', F, C.
Qed.

Lemma frame_tryExchange (pid : string) (sent : result JsError ResponseStream)
    (st : AppState) :
  frame (tryExchange (activeView st) pid sent st) = frame st
  /\ composer (tryExchange (activeView st) pid sent st) = composer st.
Proof.
  unfold tryExchange, markFailed.
  destruct sent as [stream | e]; [|apply frame_setCurrent].
  destruct (frame_consume pid (chunks stream) "" st) as [F C].
  destruct (thrown stream); [|now split].
  set (st' := snd (consume (activeView st) pid (chunks stream) "" st)) in *.
  assert (V : activeView st' = activeView st)
    by apply consume_activeView.
  rewrite <- V.
  destruct (frame_setCurrent st' (map (withFailure pid))) as [F' C'].
  now rewrite F', C', F, C.
Qed.

Lemma frame_optimisticUpdate (now : Clock) (st : AppState) :
  frame (optimisticUpdate now st) = frame st
  /\ composer (optimisticUpdate now st) = ("", [], true).
Proof.
  unfold frame, composer, otherMessages, optimisticUpdate, setCurrentMessages.
  destruct (isCode (activeView st)) eqn:E; simpl; now rewrite E.
Qed.

(** X3. A send, accepted or not, and however the exchange ends, leaves
    the view, the messages of the other lane, the model and the two
    sessions as they are. *)
Theorem handleSendMessage_keeps_other_lane (now : Clock) (st : AppState) :
  otherMessages (handleSendMessage now st) = otherMessages st
  /\ activeView (handleSendMessage now st) = activeView st
  /\ modelType (handleSendMessage now st) = modelType st
  /\ chatSessionRef (handleSendMessage now st) = chatSessionRef st
  /\ codeSessionRef (handleSendMessage now st) = codeSessionRef st.
Proof.
  assert (F : frame (handleSendMessage now st) = frame st).
  { unfold handleSendMessage.
    destruct (refused st); [reflexivity|].
    destruct (currentSession st) as [session|]; [|reflexivity].
    destruct (routeAttachments (trim (input st)) (App.attachments st))
      as [userMessageText inlineAttachments].
    rewrite <- (activeView_optimisticUpdate st now).
    destruct (frame_tryExchange (aiPlaceholderId now)
                (sendMessageStream session userMessageText inlineAttachments)
                (optimisticUpdate now st)) as [F _].
    destruct (frame_optimisticUpdate now st) as [F' _].
    rewrite <- F', <- F. reflexivity. }
  unfold frame in F. injection F as F1 F2 F3 F4 F5. now repeat split.
Qed.

(** X4. After a send that is accepted the input is empty, nothing is
    attached and the loading flag is down, however the exchange ends. *)
Theorem handleSendMessage_resets_composer (now : Clock) (st : AppState)
    (session : Chat) :
  refused st = false ->
  currentSession st = Some session ->
  input (handleSendMessage now st) = ""
  /\ App.attachments (handleSendMessage now st) = []
  /\ isLoading (handleSendMessage now st) = false.
Proof.
  intros G Sess. rewrite (handleSendMessage_accepted now st G Sess).
  rewrite <- (activeView_optimisticUpdate st now).
  destruct (frame_tryExchange (aiPlaceholderId now) (sentBy session st)
              (optimisticUpdate now st)) as [_ C].
  destruct (frame_optimisticUpdate now st) as [_ C'].
  rewrite C' in C. unfold composer in C. injection C as C1 C2 C3.
  simpl. now repeat split.
Qed.

(** *** Identifiers over the two lanes *)

Lemma handleSendMessage_frame (now : Clock) (st : AppState) :
  frame (handleSendMessage now st) = frame st.
Proof.
  unfold handleSendMessage.
  destruct (refused st); [reflexivity|].
  destruct (currentSession st) as [session|]; [|reflexivity].
  destruct (routeAttachments (trim (input st)) (App.attachments st))
    as [userMessageText inlineAttachments].
  rewrite <- (activeView_optimisticUpdate st now).
  destruct (frame_tryExchange (aiPlaceholderId now)
              (sendMessageStream session userMessageText inlineAttachments)
              (optimisticUpdate now st)) as [F _].
  destruct (frame_optimisticUpdate now st) as [F' _].
  rewrite <- F', <- F. reflexivity.
Qed.

Lemma NoDup_app_disjoint {A : Type} (l l' : list A) :
  NoDup (l ++ l') -> forall a, In a l -> ~ In a l'.
Proof.
  induction l as [|x l IH]; intros N a I; [contradiction|].
  simpl in N. apply NoDup_cons_iff in N. destruct N as [X N].
  destruct I as [-> | I].
  - intros I'. apply X. apply in_or_app. now right.
  - now apply IH.
Qed.

(** C9, as amended. Let the identifiers of the messages of the two lanes
    be the decimal writings of numbers, all different, that increase
    strictly along the lane of the send. A send that is accepted, whose
    first reading of the clock is above all these numbers and whose clock
    does not go back before the placeholder is made, leaves the other
    lane as it is and appends to its lane the reading as the identifier
    of the user message and a later reading plus one as the identifier of
    the placeholder: the numbers of the lane still increase strictly, no
    two messages of the two lanes share an identifier, and all the
    numbers are below the reading of the placeholder plus two. *)
Theorem handleSendMessage_ids_increase (now : Clock) (st : AppState)
    (session : Chat) (ns ms : list Z) :
  refused st = false ->
  currentSession st = Some session ->
  map id (getCurrentMessages st) = map toString ns ->
  map id (otherMessages st) = map toString ms ->
  StronglySorted Z.lt ns ->
  NoDup (ns ++ ms) ->
  Forall (fun n => (n < now1 now)%Z) (ns ++ ms) ->
  (now1 now <= now3 now)%Z ->
  let ns' := (ns ++ [now1 now; (now3 now + 1)%Z])%list in
  map id (getCurrentMessages (handleSendMessage now st)) = map toString ns'
  /\ map id (otherMessages (handleSendMessage now st)) = map toString ms
  /\ StronglySorted Z.lt ns'
  /\ NoDup (map id (getCurrentMessages (handleSendMessage now st))
              ++ map id (otherMessages (handleSendMessage now st)))
  /\ Forall (fun n => (n < now3 now + 2)%Z) (ns' ++ ms).
Proof.
  intros G Sess I J S N F L ns'.
  apply Forall_app in F. destruct F as [F Fm].
  assert (E : map id (getCurrentMessages (handleSendMessage now st))
              = map toString ns').
  { rewrite (handleSendMessage_ids now st G Sess), I. unfold ns'.
    now rewrite map_app. }
  assert (O : map id (otherMessages (handleSendMessage now st))
              = map toString ms).
  { pose proof (handleSendMessage_frame now st) as X. unfold frame in X.
    injection X as _ X _ _ _. now rewrite X. }
  assert (S' : StronglySorted Z.lt ns')
    by (apply sorted_snoc2; [exact S | exact F | lia]).
  split; [exact E|]. split; [exact O|]. split; [exact S'|]. split.
  - rewrite E, O, <- map_app. apply NoDup_toString.
    apply NoDup_app.
    + now apply sorted_NoDup.
    + now apply NoDup_app_remove_l in N.
    + intros a Ia Im. unfold ns' in Ia. apply in_app_iff in Ia.
      destruct Ia as [Ia | Ia].
      * now apply (NoDup_app_disjoint _ _ N a Ia).
      * rewrite Forall_forall in Fm. specialize (Fm a Im).
        simpl in Ia. destruct Ia as [<- | [<- | []]]; lia.
  - unfold ns'. rewrite <- app_assoc. apply Forall_app. split.
    + eapply Forall_impl; [|exact F]. simpl. intros n Hn. lia.
    + apply Forall_app. split.
      * repeat constructor; lia.
      * eapply Forall_impl; [|exact Fm]. simpl. intros n Hn. lia.
Qed.

(** *** The messages after a send *)

Lemma withContent_fresh (pid t : string) (l : list Message) :
  Forall (fun m => id m <> pid) l -> map (withContent pid t) l = l.
Proof.
  induction 1 as [|m l H _ IH]; simpl; [reflexivity|].
  rewrite IH. unfold withContent.
  apply String.eqb_neq in H. now rewrite H.
Qed.

Lemma withFailure_fresh (pid : string) (l : list Message) :
  Forall (fun m => id m <> pid) l -> map (withFailure pid) l = l.
Proof.
  induction 1 as [|m l H _ IH]; simpl; [reflexivity|].
  rewrite IH. unfold withFailure.
  apply String.eqb_neq in H. now rewrite H.
Qed.

Lemma consume_exact (pid : string) r ts e a cs :
  forall acc st init,
    getCurrentMessages st = (init ++ [mkMessage pid r acc ts e a])%list ->
    Forall (fun m => id m <> pid) init ->
    getCurrentMessages (snd (consume (activeView st) pid cs acc st))
    = (init ++ [mkMessage pid r (acc ++ concatTexts cs) ts e a])%list.
Proof.
  induction cs as [|c cs IH]; intros acc st init H F; simpl.
  - now rewrite append_nil_r.
  - unfold textOf. destruct (text c) as [t|]; simpl.
    + destruct (truthy t) eqn:T.
      * set (st1 := setCurrentMessages (activeView st)
                      (map (withContent pid (acc ++ t))) st).
        assert (V : activeView st1 = activeView st)
          by apply activeView_setCurrent.
        rewrite <- V, <- append_assoc. apply IH; [|exact F].
        unfold st1. rewrite getCurrent_setCurrent, H, map_app. simpl.
        now rewrite withContent_placeholder, withContent_fresh.
      * rewrite (truthy_false_empty _ T). simpl. now apply IH.
    + now apply IH.
Qed.

Lemma markFailed_messages (pid : string) (st : AppState) :
  getCurrentMessages (markFailed (activeView st) pid st)
  = map (withFailure pid) (getCurrentMessages st).
Proof. unfold markFailed. apply getCurrent_setCurrent. Qed.

(** The placeholder is the last message after a send, with the text
    aggregated or with the failure text. *)
Lemma tryExchange_last (now : Clock) (st : AppState)
    (sent : result JsError ResponseStream) :
  exists init,
    getCurrentMessages
      (tryExchange (activeView st) (aiPlaceholderId now) sent
         (optimisticUpdate now st))
    = (init ++ [settledPlaceholder now sent])%list
    /\ List.length init = S (List.length (getCurrentMessages st)).
Proof.
  assert (L : forall init : list Message,
             map id init
             = (map id (getCurrentMessages st) ++ [toString (now1 now)])%list ->
             List.length init = S (List.length (getCurrentMessages st))).
  { intros init E. apply (f_equal (@List.length string)) in E.
    rewrite length_app in E. rewrite !length_map in E. simpl in E. lia. }
  unfold tryExchange, settledPlaceholder, exchangeFails, chunksOf.
  destruct sent as [stream | e].
  - destruct (consume_after_update now st (chunks stream)) as [init [H1 H2]].
    destruct (thrown stream) as [e|].
    + set (st' := snd (consume (activeView st) (aiPlaceholderId now)
                         (chunks stream) "" (optimisticUpdate now st))) in *.
      assert (V : activeView st = activeView st').
      { unfold st'. now rewrite consume_activeView, activeView_optimisticUpdate. }
      rewrite V. unfold placeholderWith in H1.
      erewrite markFailed_placeholder by exact H1.
      exists (map (withFailure (aiPlaceholderId now)) init).
      split; [reflexivity|]. rewrite length_map. now apply L.
    + exists init. split; [exact H1 | now apply L].
  - pose proof (getCurrent_optimisticUpdate st now) as H.
    change [?u; ?p] with ([u] ++ [p])%list in H. rewrite app_assoc in H.
    unfold placeholderWith in H.
    rewrite <- (activeView_optimisticUpdate st now).
    erewrite markFailed_placeholder by exact H.
    eexists. split; [reflexivity|].
    rewrite length_map, length_app. simpl. lia.
Qed.

(** X5. When no earlier message of the lane has the identifier of the
    new placeholder, and the user message has another identifier, a send
    that is accepted changes no earlier message: it appends the user
    message, whose content is the trimmed input alone and which carries
    all the attachments, and the placeholder in its final state. *)
Theorem handleSendMessage_keeps_history (now : Clock) (st : AppState)
    (session : Chat) :
  refused st = false ->
  currentSession st = Some session ->
  Forall (fun m => id m <> aiPlaceholderId now) (getCurrentMessages st) ->
  toString (now1 now) <> aiPlaceholderId now ->
  getCurrentMessages (handleSendMessage now st)
  = (getCurrentMessages st
       ++ [userMessageOf now st; settledPlaceholder now (sentBy session st)])%list.
Proof.
  intros G Sess F U.
  rewrite (handleSendMessage_accepted now st G Sess), getCurrent_setIsLoading.
  pose proof (getCurrent_optimisticUpdate st now) as H.
  change [?u; ?p] with ([u] ++ [p])%list in H. rewrite app_assoc in H.
  unfold placeholderWith in H.
  assert (F' : Forall (fun m => id m <> aiPlaceholderId now)
                 (getCurrentMessages st
                    ++ [mkMessage (toString (now1 now)) USER (trim (input st))
                          (now2 now) None (Some (App.attachments st))])%list).
  { apply Forall_app. split; [exact F|]. now repeat constructor. }
  assert (C : forall cs,
             getCurrentMessages
               (snd (consume (activeView st) (aiPlaceholderId now) cs ""
                       (optimisticUpdate now st)))
             = ((getCurrentMessages st
                   ++ [mkMessage (toString (now1 now)) USER (trim (input st))
                         (now2 now) None (Some (App.attachments st))])
                  ++ [mkMessage (aiPlaceholderId now) MODEL (concatTexts cs)
                        (now4 now + 1)%Z None None])%list).
  { intros cs. rewrite <- (activeView_optimisticUpdate st now).
    now rewrite (@consume_exact _ _ _ _ _ cs _ (optimisticUpdate now st) _ H F'). }
  unfold tryExchange, settledPlaceholder, exchangeFails, chunksOf, userMessageOf.
  destruct (sentBy session st) as [stream | e].
  - destruct (thrown stream) as [e|].
    + set (st' := snd (consume (activeView st) (aiPlaceholderId now)
                         (chunks stream) "" (optimisticUpdate now st))) in *.
      assert (V : activeView st = activeView st').
      { unfold st'. now rewrite consume_activeView, activeView_optimisticUpdate. }
      rewrite V.
      erewrite markFailed_placeholder by (unfold st'; apply C).
      rewrite withFailure_fresh by exact F'.
      now rewrite <- app_assoc.
    + rewrite C. now rewrite <- app_assoc.
  - rewrite <- (activeView_optimisticUpdate st now).
    erewrite markFailed_placeholder by exact H.
    rewrite withFailure_fresh by exact F'.
    now rewrite <- app_assoc.
Qed.

(** X6. The updates go by identifier: after an exchange that fails,
    every message of the lane that has the identifier of the placeholder,
    an earlier one as well, holds the failure text and the error flag. *)
Theorem failure_marks_every_match (now : Clock) (st : AppState)
    (session : Chat) :
  refused st = false ->
  currentSession st = Some session ->
  exchangeFails (sentBy session st) = true ->
  Forall (fun m => id m = aiPlaceholderId now ->
                   content m = failureText /\ isError m = Some true)
    (getCurrentMessages (handleSendMessage now st)).
Proof.
  intros G Sess X.
  rewrite (handleSendMessage_accepted now st G Sess), getCurrent_setIsLoading.
  assert (M : forall l : list Message,
             Forall (fun m => id m = aiPlaceholderId now ->
                              content m = failureText /\ isError m = Some true)
               (map (withFailure (aiPlaceholderId now)) l)).
  { intros l. apply Forall_forall. intros m I.
    apply in_map_iff in I. destruct I as [m0 [E _]]. subst m.
    rewrite withFailure_id. intros H. unfold withFailure.
    apply String.eqb_eq in H. rewrite H. now split. }
  unfold tryExchange, exchangeFails in *.
  destruct (sentBy session st) as [stream | e].
  - destruct (thrown stream) as [e|]; [|discriminate].
    set (st' := snd (consume (activeView st) (aiPlaceholderId now)
                       (chunks stream) "" (optimisticUpdate now st))).
    assert (V : activeView st = activeView st').
    { unfold st'. now rewrite consume_activeView, activeView_optimisticUpdate. }
    rewrite V, markFailed_messages. apply M.
  - rewrite <- (activeView_optimisticUpdate st now), markFailed_messages.
    apply M.
Qed.

Lemma isThinking_placeholder (now : Clock) (c : string) (flag : option bool) :
  isThinking (placeholderWith now c flag)
  = negb (truthy c) && negb (truthy_flag flag).
Proof. reflexivity. Qed.

(** X7. After a send that is accepted the last message of the lane is
    the placeholder, and [ChatMessage] shows it as still thinking exactly
    when the exchange succeeded without delivering any text; the loading
    flag is down all the same. *)
Theorem empty_answer_keeps_thinking (now : Clock) (st : AppState)
    (session : Chat) :
  refused st = false ->
  currentSession st = Some session ->
  isLoading (handleSendMessage now st) = false
  /\ exists init p,
       getCurrentMessages (handleSendMessage now st) = (init ++ [p])%list
       /\ isThinking p
          = negb (exchangeFails (sentBy session st))
            && negb (truthy (concatTexts (chunksOf (sentBy session st)))).
Proof.
  intros G Sess.
  rewrite (handleSendMessage_accepted now st G Sess), getCurrent_setIsLoading.
  split; [reflexivity|].
  destruct (tryExchange_last now st (sentBy session st)) as [init [H _]].
  exists init, (settledPlaceholder now (sentBy session st)).
  split; [exact H|].
  unfold settledPlaceholder.
  destruct (exchangeFails (sentBy session st));
    rewrite isThinking_placeholder; simpl; [reflexivity|].
  now rewrite andb_true_r.
Qed.

(** *** From a file to the request *)

Lemma commaFree_app (a b : string) :
  commaFree a = true -> commaFree b = true -> commaFree (a ++ b) = true.
Proof.
  intros Ha Hb. induction a as [|c a IH]; simpl in *; [exact Hb|].
  apply andb_prop in Ha. destruct Ha as [H1 H2].
  rewrite H1. now apply IH.
Qed.

(** X8. An image, a video or a PDF file read as a Base64 data URL of its
    own type gives an attachment that is sent inline: the request holds
    one inline part with the Base64 payload, without the prefix, and the
    type of the file, and then the text. *)
Theorem binary_file_is_sent_inline (file : File) (c : FileContents)
    (b64 userMessageText : string) :
  isBinaryFile file = true ->
  asDataURL c = Some ("data:" ++ file_type file ++ ";base64," ++ b64) ->
  commaFree (file_type file) = true ->
  commaFree b64 = true ->
  exists att,
    attachmentOfFile file c = Some att
    /\ isInline att = true
    /\ messagePayload (fst (routeAttachments userMessageText [att]))
         (snd (routeAttachments userMessageText [att]))
       = PayloadParts
           [mkPart (Some (mkBlob (Some b64) (Some (file_type file)))) None;
            textPart userMessageText].
Proof.
  intros B U Ct Cb. unfold isBinaryFile in B.
  set (att := mkAttachment (file_name file)
                ("data:" ++ file_type file ++ ";base64," ++ b64)
                (file_type file)
                (if startsWith (file_type file) "image/" then T_image
                 else if startsWith (file_type file) "video/" then T_video
                      else T_pdf)
                (Some (file_size file))).
  assert (I : isInline att = true).
  { unfold isInline, att. simpl.
    now destruct (startsWith (file_type file) "image/"),
                 (startsWith (file_type file) "video/"). }
  exists att. split; [|split; [exact I|]].
  - unfold attachmentOfFile. rewrite B, U. reflexivity.
  - unfold routeAttachments. rewrite routeAttachments_fold.
    cbn [filter]. unfold isPromptText. rewrite I.
    cbn [negb map concatAll app fst snd]. rewrite append_nil_r.
    unfold messagePayload, toInline, att.
    cbn [List.length Nat.ltb Nat.leb map app att_data att_mimeType].
    replace ("data:" ++ file_type file ++ ";base64," ++ b64)
      with (("data:" ++ file_type file ++ ";base64") ++ "," ++ b64)
      by (now rewrite !append_assoc).
    rewrite inlinePart_dataURL; [reflexivity | | exact Cb].
    apply (commaFree_app "data:"); [reflexivity|].
    now apply commaFree_app.
Qed.

(** X9. A file of the text branch whose text is not empty gives an
    attachment that is not sent inline: the request is the text alone,
    the input followed by two line feeds, the name of the file between
    brackets and the text of the file. *)
Theorem text_file_joins_prompt (file : File) (c : FileContents)
    (r userMessageText : string) :
  textBranch file = true ->
  asText c = Some r ->
  truthy r = true ->
  exists att,
    attachmentOfFile file c = Some att
    /\ isInline att = false
    /\ messagePayload (fst (routeAttachments userMessageText [att]))
         (snd (routeAttachments userMessageText [att]))
       = PayloadString
           (userMessageText ++ LF ++ LF
              ++ "[FILE_CONTENT: " ++ file_name file ++ "]" ++ LF ++ r).
Proof.
  intros B T R. unfold textBranch, isBinaryFile in B.
  apply andb_prop in B. destruct B as [B B3].
  apply andb_prop in B. destruct B as [B1 B2].
  apply negb_true_iff in B1. apply negb_true_iff in B2.
  unfold attachmentOfFile. rewrite B1, B2, B3, T, R.
  eexists. split; [reflexivity|]. split; [reflexivity|].
  unfold routeAttachments. rewrite routeAttachments_fold.
  cbn [filter isPromptText isInline att_type negb map concatAll app fst snd].
  unfold messagePayload, promptText.
  cbn [List.length Nat.ltb Nat.leb att_data].
  now rewrite append_nil_r.
Qed.

Lemma extractEntries_fails (entries : ZipFiles) :
  forall extractedText fileCount room m e,
    fileCount + room = 51 ->
    In m (firstn room (filter qualifies entries)) ->
    async (snd m) = Err e ->
    exists e', extractEntries entries extractedText fileCount = Err e'.
Proof.
  induction entries as [|[path entry] entries IH];
    intros extractedText fileCount room m e B I A.
  - simpl in I. rewrite firstn_nil in I. contradiction.
  - cbn [extractEntries].
    destruct (Nat.ltb 50 fileCount) eqn:L.
    + apply Nat.ltb_lt in L. assert (room = 0) by lia. subst room.
      simpl in I. contradiction.
    + apply Nat.ltb_ge in L.
      assert (Q : qualifies (path, entry)
                  = negb (dir entry)
                    && matchesExtension archiveTextExtensions path)
        by reflexivity.
      simpl filter in I. rewrite Q in I. clear Q.
      destruct (dir entry); cbn [negb andb] in *.
      * now apply (IH _ _ room m e).
      * destruct (matchesExtension archiveTextExtensions path).
        -- destruct room as [|room]; [exfalso; lia|].
           cbn [firstn] in I. destruct I as [I | I].
           ++ subst m. cbn [snd] in A. rewrite A. now exists e.
           ++ destruct (async entry) as [content | e0]; [|now exists e0].
              apply (IH _ (fileCount + 1) room m e); [lia | exact I | exact A].
        -- now apply (IH _ _ room m e).
Qed.

(** X10. An archive is taken whole or not at all: when one of the first
    51 members that are taken cannot be read, the file gives no
    attachment, whatever the other members hold. *)
Theorem unreadable_member_drops_archive (file : File) (c : FileContents)
    (entries : ZipFiles) (m : string * ZipEntry) (e : JsError) :
  zipBranch file = true ->
  asZip c = Ok entries ->
  In m (firstn 51 (filter qualifies entries)) ->
  async (snd m) = Err e ->
  attachmentOfFile file c = None.
Proof.
  intros Z A I E.
  unfold attachmentOfFile. unfold zipBranch in Z.
  apply andb_prop in Z. destruct Z as [Z1 Z2].
  apply negb_true_iff in Z1. rewrite Z1, Z2, A.
  destruct (extractEntries_fails entries (archiveHeader (file_name file))
              0 51 m eq_refl I E) as [e' X].
  now rewrite X.
Qed.

(** ** Further properties of [src/services/gemini.ts] *)

(** The attempt that ends the call. *)
Lemma generateImage_last_attempt
    (generateContent :
       nat -> GenerateContentParameters -> result JsError GenerateContentResponse)
    (prompt : string) (model : ImageModel) :
  exists k,
    k <= 3
    /\ generateImage generateContent prompt model
       = (outcomeOf (generateContent k (imageRequest prompt model)),
          retryLog (imageRequest prompt model) 0 k)
    /\ (forall n, n < k ->
          quotaFailure (generateContent n (imageRequest prompt model)) = true).
Proof.
  assert (K : exists k,
             k <= 3
             /\ (forall n, n < k ->
                   quotaFailure (generateContent n (imageRequest prompt model))
                   = true)
             /\ (k = 3
                 \/ quotaFailure (generateContent k (imageRequest prompt model))
                    = false)).
  { destruct (quotaFailure (generateContent 0 (imageRequest prompt model))) eqn:Q0;
      [|exists 0; repeat split; [lia | intros n Hn; lia | now right]].
    destruct (quotaFailure (generateContent 1 (imageRequest prompt model))) eqn:Q1;
      [|exists 1; repeat split;
        [lia | intros n Hn; assert (n = 0) by lia; now subst | now right]].
    destruct (quotaFailure (generateContent 2 (imageRequest prompt model))) eqn:Q2;
      [|exists 2; repeat split;
        [lia
        | intros n Hn; assert (n = 0 \/ n = 1) as [-> | ->] by lia; assumption
        | now right]].
    exists 3. repeat split; [lia | | now left].
    intros n Hn.
    assert (n = 0 \/ n = 1 \/ n = 2) as [-> | [-> | ->]] by lia; assumption. }
  destruct K as [k [B [Q Stop]]]. exists k.
  split; [exact B|]. split; [|exact Q].
  unfold generateImage.
  apply (@attemptGenerate_run generateContent prompt model k 0);
    [exact B | intros n Hn; apply Q; lia | exact Stop].
Qed.

(** X11. Whatever the service answers, [generateImage] asks it at most
    four times and waits at most 12000 ms in all: for some [k] up to 3 it
    makes [k] retries, each after a quota error, and returns what the
    attempt [k] gives. *)
Theorem generateImage_is_bounded
    (generateContent :
       nat -> GenerateContentParameters -> result JsError GenerateContentResponse)
    (prompt : string) (model : ImageModel) :
  exists k,
    k <= 3
    /\ generateImage generateContent prompt model
       = (outcomeOf (generateContent k (imageRequest prompt model)),
          retryLog (imageRequest prompt model) 0 k)
    /\ (forall n, n < k ->
          quotaFailure (generateContent n (imageRequest prompt model)) = true)
    /\ requestsOf (snd (generateImage generateContent prompt model)) <= 4
    /\ (0 <= totalDelay (snd (generateImage generateContent prompt model))
        <= 12000)%Z.
Proof.
  destruct (generateImage_last_attempt generateContent prompt model)
    as [k [B [E Q]]].
  exists k. split; [exact B|]. split; [exact E|]. split; [exact Q|].
  rewrite E. cbn [snd]. unfold requestsOf, totalDelay.
  rewrite retryLog_calls, retryLog_delays by exact B.
  split; [lia|].
  destruct k as [|[|[|[|k]]]]; simpl; lia.
Qed.

Section PollingInvariants.

Variable getVideosOperation : nat -> Operation -> result JsError Operation.

Lemma last_cons {A : Type} (l : list A) (a d : A) :
  last (a :: l) d = last l a.
Proof.
  revert a d. induction l as [|b l IH]; intros a d; [reflexivity|].
  change (last (a :: b :: l) d) with (last (b :: l) d).
  now rewrite (IH b d), (IH b a).
Qed.

(** What a run of the loop that ends did: it asked about the operations
    [asked], none of them done; when it ends with an operation, the polls
    were answered by [answers], the operation is the last answer (or the
    one the loop started from), it is done, and the operations asked
    about are all the others. *)
Lemma pollUntilDone_log (fuel : nat) :
  forall polls operation r log,
    pollUntilDone getVideosOperation fuel polls operation = Some (r, log) ->
    exists asked,
      log = flat_map (fun o => [SetTimeout 5000; CallGetVideosOperation o]) asked
      /\ Forall (fun o => isDone o = false) asked
      /\ (forall final, r = Ok final ->
            exists answers,
              pollsReturn getVideosOperation polls operation answers
              /\ final = last answers operation
              /\ isDone final = true
              /\ asked = removelast (operation :: answers)).
Proof.
  induction fuel as [|fuel IH]; intros polls operation r log H; simpl in H;
    destruct (isDone operation) eqn:D.
  - injection H as <- <-. exists []. repeat split; [constructor|].
    intros final E. injection E as <-. exists []. simpl. now repeat split.
  - discriminate.
  - injection H as <- <-. exists []. repeat split; [constructor|].
    intros final E. injection E as <-. exists []. simpl. now repeat split.
  - destruct (getVideosOperation polls operation) as [operation' | e] eqn:G.
    + destruct (pollUntilDone getVideosOperation fuel (S polls) operation')
        as [[r' log']|] eqn:P; [|discriminate].
      injection H as <- <-.
      destruct (IH _ _ _ _ P) as [asked [L [F R]]].
      exists (operation :: asked). simpl. rewrite L.
      repeat split; [now constructor|].
      intros final E. destruct (R final E) as [answers [PR [EL [DF EA]]]].
      exists (operation' :: answers). split; [|split; [|split]].
      * simpl. now split.
      * now rewrite last_cons.
      * exact DF.
      * rewrite EA. reflexivity.
    + injection H as <- <-. exists [operation]. simpl.
      repeat split; [now repeat constructor|]. intros final E. discriminate.
Qed.

Lemma pollUntilDone_poll_fails (pending : list Operation) (e : JsError) :
  forall polls operation fuel,
    isDone operation = false ->
    Forall (fun o => isDone o = false) pending ->
    pollsReturn getVideosOperation polls operation pending ->
    getVideosOperation (polls + List.length pending) (last pending operation)
    = Err e ->
    List.length pending < fuel ->
    pollUntilDone getVideosOperation fuel polls operation
    = Some (Err e,
            (pollLog operation pending
               ++ [SetTimeout 5000;
                   CallGetVideosOperation (last pending operation)])%list).
Proof.
  induction pending as [|o pending IH];
    intros polls operation fuel N P R X F; simpl in *.
  - destruct fuel as [|fuel]; [lia|]. simpl.
    rewrite Nat.add_0_r in X. now rewrite N, X.
  - destruct R as [R1 R]. inversion P as [|? ? No P']; subst.
    destruct fuel as [|fuel]; [lia|]. simpl. rewrite N, R1.
    change (match pending with
            | [] => o
            | _ :: _ => last pending operation
            end) with (last (o :: pending) operation) in *.
    rewrite last_cons in *.
    rewrite (IH (S polls) o fuel No P' R); [reflexivity | | lia].
    now replace (S polls + List.length pending)
      with (polls + S (List.length pending)) by lia.
Qed.

End PollingInvariants.

(** X12. Whenever [generateVeoVideo] returns, with a link, with [null] or
    with an error, what it did is the submission followed by polls, each
    one right after a delay of 5000 ms and each one about an operation
    that was not done. When it returns without an error, the polls were
    answered one after the other by the operations [answers], the
    operations asked about are the submitted one and the answers but the
    last, the last answer (the submitted operation when no poll was
    made) is done, and what is returned is the link of that operation. *)
Theorem generateVeoVideo_waits_before_each_poll
    (generateVideos : GenerateVideosParameters -> result JsError Operation)
    (getVideosOperation : nat -> Operation -> result JsError Operation)
    (fuel : nat) (env : Env) (prompt : string) (aspectRatio : AspectRatio)
    (r : result JsError (option string)) (log : list Event) :
  generateVeoVideo generateVideos getVideosOperation fuel env prompt aspectRatio
  = Some (r, log) ->
  exists asked,
    log = (CallGenerateVideos (videoRequest prompt aspectRatio)
             :: flat_map (fun o => [SetTimeout 5000; CallGetVideosOperation o])
                  asked)
    /\ Forall (fun o => isDone o = false) asked
    /\ (forall link, r = Ok link ->
          exists submitted answers,
            generateVideos (videoRequest prompt aspectRatio) = Ok submitted
            /\ pollsReturn getVideosOperation 0 submitted answers
            /\ asked = removelast (submitted :: answers)
            /\ isDone (last answers submitted) = true
            /\ link = videoLink env (last answers submitted)).
Proof.
  unfold generateVeoVideo. intros H.
  destruct (generateVideos (videoRequest prompt aspectRatio)) as [operation | e].
  - destruct (pollUntilDone getVideosOperation fuel 0 operation)
      as [[[final | e] plog]|] eqn:P; [| |discriminate].
    + injection H as <- <-.
      destruct (pollUntilDone_log _ _ _ _ P) as [asked [L [F R]]].
      exists asked. rewrite L. repeat split; [exact F|].
      intros link E. injection E as <-.
      destruct (R final eq_refl) as [answers [PR [EL [DF EA]]]].
      exists operation, answers. rewrite <- EL. now repeat split.
    + injection H as <- <-.
      destruct (pollUntilDone_log _ _ _ _ P) as [asked [L [F R]]].
      exists asked. rewrite L. repeat split; [exact F|].
      intros link E. discriminate.
  - injection H as <- <-. exists []. repeat split; [constructor|].
    intros link E. discriminate.
Qed.

(** X13. A poll that fails ends the call: after the polls answered by
    the operations [pending], none of them done, the error of the next
    poll is thrown to the caller, and no other request is made. *)
Theorem poll_failure_is_not_retried
    (generateVideos : GenerateVideosParameters -> result JsError Operation)
    (getVideosOperation : nat -> Operation -> result JsError Operation)
    (env : Env) (prompt : string) (aspectRatio : AspectRatio)
    (submitted : Operation) (pending : list Operation) (e : JsError)
    (fuel : nat) :
  generateVideos (videoRequest prompt aspectRatio) = Ok submitted ->
  isDone submitted = false ->
  Forall (fun o => isDone o = false) pending ->
  pollsReturn getVideosOperation 0 submitted pending ->
  getVideosOperation (List.length pending) (last pending submitted) = Err e ->
  List.length pending < fuel ->
  generateVeoVideo generateVideos getVideosOperation fuel env prompt aspectRatio
  = Some (Err e,
          CallGenerateVideos (videoRequest prompt aspectRatio)
            :: (pollLog submitted pending
                  ++ [SetTimeout 5000;
                      CallGetVideosOperation (last pending submitted)])%list).
Proof.
  intros Sub N P R X F. unfold generateVeoVideo. rewrite Sub.
  now rewrite (@pollUntilDone_poll_fails getVideosOperation pending e 0
                 submitted fuel N P R X F).
Qed.

(** ** Generated code: [cleanCodeResponse] and its callers *)

Lemma prefix_cons (c d : ascii) (p s : string) :
  String.prefix (String c p) (String d s) = Ascii.eqb c d && String.prefix p s.
Proof.
  simpl. destruct (ascii_dec c d) as [E | E].
  - subst. now rewrite Ascii.eqb_refl.
  - apply Ascii.eqb_neq in E. now rewrite E.
Qed.

Lemma prefix_nil_l (s : string) : String.prefix "" s = true.
Proof. now destruct s. Qed.

Lemma removeFrom_step (pat : string) (c : ascii) (s : string) :
  removeFrom pat 0 (String c s)
  = if String.prefix pat (String c s)
    then removeFrom pat (String.length pat - 1) s
    else String c (removeFrom pat 0 s).
Proof. reflexivity. Qed.

Lemma fence_found (s : string) :
  String.prefix "```" s = true ->
  exists rest, s = "```" ++ rest /\ removeAll "```" s = removeAll "```" rest.
Proof.
  intros H.
  destruct s as [|c1 [|c2 [|c3 rest]]];
    repeat (rewrite prefix_cons in H);
    try (cbn [String.prefix] in H; rewrite ?andb_false_r in H; discriminate).
  apply andb_prop in H. destruct H as [H1 H].
  apply andb_prop in H. destruct H as [H2 H].
  apply andb_prop in H. destruct H as [H3 _].
  apply Ascii.eqb_eq in H1, H2, H3. subst.
  exists rest. split; [reflexivity|].
  unfold removeAll. rewrite removeFrom_step.
  rewrite !prefix_cons, !Ascii.eqb_refl, prefix_nil_l.
  reflexivity.
Qed.

(** The output starts with a backtick, or with two, only if the input
    does. *)
Lemma removeAll_head1 (s : string) :
  String.prefix "`" (removeAll "```" s) = true -> String.prefix "`" s = true.
Proof.
  unfold removeAll. destruct s as [|c s]; [discriminate|].
  rewrite removeFrom_step.
  destruct (String.prefix "```" (String c s)) eqn:E.
  - intros _. rewrite prefix_cons in *. apply andb_prop in E. destruct E as [E _].
    now rewrite E, prefix_nil_l.
  - rewrite !prefix_cons. intros H. apply andb_prop in H. destruct H as [H _].
    now rewrite H, prefix_nil_l.
Qed.

Lemma removeAll_head2 (s : string) :
  String.prefix "``" (removeAll "```" s) = true -> String.prefix "``" s = true.
Proof.
  unfold removeAll. destruct s as [|c s]; [discriminate|].
  rewrite removeFrom_step.
  destruct (String.prefix "```" (String c s)) eqn:E.
  - intros _. rewrite prefix_cons in *. apply andb_prop in E. destruct E as [E1 E].
    rewrite E1. simpl. destruct s as [|c2 s]; [discriminate|].
    rewrite prefix_cons in *. apply andb_prop in E. destruct E as [E2 _].
    now rewrite E2, prefix_nil_l.
  - rewrite !prefix_cons. intros H. apply andb_prop in H. destruct H as [H1 H].
    rewrite H1. simpl. now apply removeAll_head1.
Qed.

Lemma removeAll_no_fence_upto (n : nat) :
  forall s, String.length s <= n -> includes (removeAll "```" s) "```" = false.
Proof.
  induction n as [|n IH]; intros s L.
  - destruct s; [reflexivity | simpl in L; lia].
  - destruct s as [|c s]; [reflexivity|].
    destruct (String.prefix "```" (String c s)) eqn:E.
    + destruct (fence_found _ E) as [rest [S R]]. rewrite R.
      apply IH. rewrite S in L. simpl in L. lia.
    + unfold removeAll. rewrite removeFrom_step, E.
      cbn [includes]. fold (removeAll "```" s).
      rewrite (IH s) by (simpl in L; lia). rewrite orb_false_r.
      rewrite prefix_cons in *.
      destruct (Ascii.eqb "`" c) eqn:C; [|reflexivity].
      simpl in *.
      destruct (String.prefix "``" (removeAll "```" s)) eqn:P; [|reflexivity].
      apply removeAll_head2 in P. congruence.
Qed.

Lemma removeAll_no_fence (s : string) :
  includes (removeAll "```" s) "```" = false.
Proof. now apply (@removeAll_no_fence_upto (String.length s)). Qed.

(** *** Parts of a text *)

Lemma prefix_app (p a w : string) :
  String.prefix p a = true -> String.prefix p (a ++ w) = true.
Proof.
  revert a. induction p as [|c p IH]; intros a H; [apply prefix_nil_l|].
  destruct a as [|d a]; [discriminate|]. simpl append.
  rewrite prefix_cons in *. apply andb_prop in H. destruct H as [H1 H2].
  now rewrite H1, IH.
Qed.

Lemma includes_app_l (a w p : string) :
  includes a p = true -> includes (a ++ w) p = true.
Proof.
  induction a as [|c a IH]; cbn [includes append]; intros H.
  - rewrite orb_false_r in H. destruct p; [|discriminate].
    destruct w; reflexivity.
  - apply orb_true_iff in H. destruct H as [H | H].
    + pose proof (prefix_app p (String c a) w H) as P.
      cbn [append] in P. now rewrite P.
    + rewrite IH by exact H. apply orb_true_r.
Qed.

Lemma trimStartFrom_suffix (s : string) :
  forall skip, exists w, s = w ++ trimStartFrom skip s.
Proof.
  induction s as [|c s IH]; intros skip; [now exists ""|].
  cbn [trimStartFrom].
  assert (D : forall k, exists w, String c s = w ++ trimStartFrom k s).
  { intros k. destruct (IH k) as [w W].
    exists (String c w). cbn [append]. now rewrite <- W. }
  destruct skip as [|k]; [|apply D].
  destruct (spaceAt (String c s)) as [|k]; [now exists "" | apply D].
Qed.

Lemma includes_app_r (w a p : string) :
  includes a p = true -> includes (w ++ a) p = true.
Proof.
  intros H. induction w as [|c w IH]; cbn [append includes]; [exact H|].
  rewrite IH. apply orb_true_r.
Qed.

Lemma includes_trimStart (s p : string) :
  includes (trimStart s) p = true -> includes s p = true.
Proof.
  intros H. destruct (trimStartFrom_suffix s 0) as [w W].
  rewrite W. now apply includes_app_r.
Qed.

(** What [trimEnd] drops is white space. *)
Lemma trimEnd_split (s : string) :
  exists w, s = trimEnd s ++ w /\ isBlank w = true.
Proof.
  induction s as [|c s [w [W B]]]; [now exists ""|].
  cbn [trimEnd]. destruct (isBlank (String c s)) eqn:E.
  - now exists (String c s).
  - exists w. cbn [append]. now rewrite <- W.
Qed.

Lemma trimEnd_prefix (s : string) : exists w, s = trimEnd s ++ w.
Proof. destruct (trimEnd_split s) as [w [W _]]. now exists w. Qed.

Lemma includes_trim (s p : string) :
  includes s p = false -> includes (trim s) p = false.
Proof.
  intros H. unfold trim.
  destruct (includes (trimEnd (trimStart s)) p) eqn:E; [|reflexivity].
  destruct (trimEnd_prefix (trimStart s)) as [w W].
  apply (includes_app_l _ w) in E. rewrite <- W in E.
  apply includes_trimStart in E. congruence.
Qed.

Lemma includes_weaken (p q : string) :
  (forall x, String.prefix q x = true -> String.prefix p x = true) ->
  forall s, includes s q = true -> includes s p = true.
Proof.
  intros W. induction s as [|c s IH]; cbn [includes]; intros H.
  - rewrite orb_false_r in *. now apply W.
  - apply orb_true_iff in H. destruct H as [H | H].
    + now rewrite (W _ H).
    + rewrite IH by exact H. apply orb_true_r.
Qed.

Lemma includes_html_fence (s : string) :
  includes s "```" = false -> includes s "```html" = false.
Proof.
  intros H. destruct (includes s "```html") eqn:E; [|reflexivity].
  apply (includes_weaken "```" "```html") in E; [congruence|].
  intros x P. destruct x as [|c1 [|c2 [|c3 x]]];
    repeat rewrite prefix_cons in *; cbn [String.prefix] in P;
    rewrite ?andb_false_r in P; try discriminate.
  apply andb_prop in P. destruct P as [P1 P].
  apply andb_prop in P. destruct P as [P2 P].
  apply andb_prop in P. destruct P as [P3 _].
  now rewrite P1, P2, P3, prefix_nil_l.
Qed.

Lemma removeAll_absent (pat s : string) :
  includes s pat = false -> removeAll pat s = s.
Proof.
  unfold removeAll. induction s as [|c s IH]; [reflexivity|].
  intros H. cbn [includes] in H. apply orb_false_iff in H.
  destruct H as [H1 H2]. rewrite removeFrom_step, H1.
  now rewrite IH.
Qed.

(** The white space character a text starts with is the one any longer
    text starts with. *)
Lemma spaceAt_app (p w : string) (k : nat) :
  spaceAt p = S k -> spaceAt (p ++ w) = S k.
Proof.
  destruct p as [|a [|b [|c p]]]; cbn [spaceAt append];
    try discriminate.
  - destruct (asciiSpace a); [trivial | discriminate].
  - destruct (asciiSpace a); [trivial|].
    destruct (space2 a b); [trivial | discriminate].
  - destruct (asciiSpace a); [trivial|].
    destruct (space2 a b); trivial.
Qed.

Lemma spaceAt_trimStartFrom (s : string) :
  forall skip, spaceAt (trimStartFrom skip s) = 0.
Proof.
  induction s as [|c s IH]; intros skip; [reflexivity|].
  cbn [trimStartFrom]. destruct skip as [|k]; [|apply IH].
  destruct (spaceAt (String c s)) as [|k] eqn:E; [exact E | apply IH].
Qed.

Lemma trimStart_kept (s : string) : spaceAt s = 0 -> trimStart s = s.
Proof.
  intros H. unfold trimStart. destruct s as [|c s]; [reflexivity|].
  cbn [trimStartFrom]. now rewrite H.
Qed.

Lemma spaceAt_trimEnd (s : string) : spaceAt s = 0 -> spaceAt (trimEnd s) = 0.
Proof.
  intros H. destruct (spaceAt (trimEnd s)) as [|k] eqn:E; [reflexivity|].
  destruct (trimEnd_prefix s) as [w W].
  apply (spaceAt_app _ w) in E. rewrite <- W in E. congruence.
Qed.

Lemma blankFrom_app (a w : string) :
  isBlank w = true ->
  forall skip, blankFrom skip a = true -> blankFrom skip (a ++ w) = true.
Proof.
  intros B. induction a as [|c a IH]; intros skip H.
  - cbn [blankFrom] in H. apply Nat.eqb_eq in H. subst. exact B.
  - cbn [append]. cbn [blankFrom] in *.
    destruct skip as [|k]; [|now apply IH].
    destruct (spaceAt (String c a)) as [|k] eqn:E; [discriminate|].
    change (String c (a ++ w)) with (String c a ++ w).
    rewrite (spaceAt_app _ w E). now apply IH.
Qed.

Lemma trimEnd_idempotent (s : string) : trimEnd (trimEnd s) = trimEnd s.
Proof.
  induction s as [|c s IH]; [reflexivity|]. cbn [trimEnd].
  destruct (isBlank (String c s)) eqn:E; [reflexivity|].
  cbn [trimEnd]. rewrite IH.
  destruct (isBlank (String c (trimEnd s))) eqn:E'; [|reflexivity].
  destruct (trimEnd_split s) as [w [W B]].
  pose proof (blankFrom_app (String c (trimEnd s)) w B 0 E') as X.
  cbn [append] in X. rewrite <- W in X. unfold isBlank in E. congruence.
Qed.

Lemma trim_idempotent (s : string) : trim (trim s) = trim s.
Proof.
  unfold trim.
  rewrite (trimStart_kept (trimEnd (trimStart s))).
  - apply trimEnd_idempotent.
  - apply spaceAt_trimEnd. unfold trimStart. apply spaceAt_trimStartFrom.
Qed.

Lemma cleanCodeResponse_no_fence (code : string) :
  includes (cleanCodeResponse code) "```" = false.
Proof. unfold cleanCodeResponse. apply includes_trim, removeAll_no_fence. Qed.

Lemma collectText_concat cs :
  forall fullCode, collectText cs fullCode = fullCode ++ concatTexts cs.
Proof.
  induction cs as [|c cs IH]; intros fullCode; simpl.
  - now rewrite append_nil_r.
  - unfold textOf. destruct (text c) as [t|]; simpl.
    + destruct (truthy t) eqn:T.
      * rewrite IH. apply append_assoc.
      * rewrite IH. now rewrite (truthy_false_empty _ T).
    + apply IH.
Qed.

Lemma codeOfStream_clean (responseStream : ResponseStream) (code : string) :
  codeOfStream responseStream = Ok code ->
  thrown responseStream = None
  /\ code = cleanCodeResponse (concatTexts (chunks responseStream)).
Proof.
  unfold codeOfStream. destruct (thrown responseStream); [discriminate|].
  intros H. injection H as <-. now rewrite collectText_concat.
Qed.

(** X14. What [cleanCodeResponse] returns holds no code fence, with or
    without [html] after it, whatever the text given; so does every text
    that [updateProjectFile] returns. *)
Theorem cleanCodeResponse_removes_fences :
  (forall code,
     includes (cleanCodeResponse code) "```" = false
     /\ includes (cleanCodeResponse code) "```html" = false)
  /\ (forall generateContent prompt currentFile code,
        updateProjectFile generateContent prompt currentFile = Ok code ->
        includes code "```" = false).
Proof.
  split.
  - intros code. split; [apply cleanCodeResponse_no_fence|].
    apply includes_html_fence, cleanCodeResponse_no_fence.
  - intros generateContent prompt currentFile code. unfold updateProjectFile.
    destruct (generateContent _) as [res | e]; [|discriminate].
    intros H. injection H as <-. apply cleanCodeResponse_no_fence.
Qed.

(** X15. Cleaning a text that has been cleaned changes nothing. *)
Theorem cleanCodeResponse_idempotent (code : string) :
  cleanCodeResponse (cleanCodeResponse code) = cleanCodeResponse code.
Proof.
  pose proof (cleanCodeResponse_no_fence code) as F.
  unfold cleanCodeResponse at 1.
  rewrite (removeAll_absent "```html") by now apply includes_html_fence.
  rewrite (removeAll_absent "```") by exact F.
  unfold cleanCodeResponse. apply trim_idempotent.
Qed.

(** X16. [generateCodeFromPlan] asks the first model and, only when that
    attempt fails, while the stream is asked for or while it is read,
    the second model, once: the code of the first attempt is returned
    when there is one; otherwise the outcome of the second attempt is
    the outcome of the call, with nothing of what the first stream had
    delivered, and its error is the one thrown. A code returned holds no
    code fence. *)
Theorem generateCodeFromPlan_falls_back_once
    (JSON_stringify : ReverseEngineeringPlan -> string)
    (generateContentStream : nat -> ContentRequest -> result JsError ResponseStream)
    (plan : ReverseEngineeringPlan) :
  let out := generateCodeFromPlan JSON_stringify generateContentStream plan in
  let first :=
    codeOfAttempt
      (attemptStream JSON_stringify generateContentStream 0 plan
         "gemini-3-pro-preview") in
  let second :=
    codeOfAttempt
      (attemptStream JSON_stringify generateContentStream 1 plan
         "gemini-2.5-flash") in
  (forall code, first = Ok code -> out = (Ok code, ["gemini-3-pro-preview"]))
  /\ (forall e, first = Err e ->
        out = (second, ["gemini-3-pro-preview"; "gemini-2.5-flash"]))
  /\ (forall code, fst out = Ok code -> includes code "```" = false).
Proof.
  intros out first second.
  unfold out, first, second, generateCodeFromPlan, codeOfAttempt.
  destruct (attemptStream JSON_stringify generateContentStream 0 plan
              "gemini-3-pro-preview") as [s0 | e0].
  - destruct (codeOfStream s0) as [c0 | x0] eqn:C0.
    + split; [|split].
      * intros code H. now injection H as <-.
      * intros e H. discriminate.
      * intros code H. simpl in H. injection H as <-.
        apply codeOfStream_clean in C0. destruct C0 as [_ ->].
        apply cleanCodeResponse_no_fence.
    + split; [|split].
      * intros code H. discriminate.
      * intros e H. reflexivity.
      * intros code H. simpl in H.
        destruct (attemptStream JSON_stringify generateContentStream 1 plan
                    "gemini-2.5-flash") as [s1 | e1]; [|discriminate].
        apply codeOfStream_clean in H. destruct H as [_ ->].
        apply cleanCodeResponse_no_fence.
  - split; [|split].
    + intros code H. discriminate.
    + intros e H. reflexivity.
    + intros code H. simpl in H.
      destruct (attemptStream JSON_stringify generateContentStream 1 plan
                  "gemini-2.5-flash") as [s1 | e1]; [|discriminate].
      apply codeOfStream_clean in H. destruct H as [_ ->].
      apply cleanCodeResponse_no_fence.
Qed.

(** ** The image studio: [handleGenerate] *)

Lemma firstInlineImage_data_uri (ps : list Part) (url : string) :
  firstInlineImage ps = Some url ->
  truthy url = true /\ String.prefix "data:" url = true.
Proof.
  induction ps as [|p ps IH]; simpl; [discriminate|].
  destruct (part_inlineData p) as [b|]; [|exact IH].
  destruct (blob_data b) as [d|]; [|exact IH].
  destruct (truthy d); [|exact IH].
  intros H. injection H as <-. split; [reflexivity|].
  cbn [append]. rewrite !prefix_cons, !Ascii.eqb_refl. apply prefix_nil_l.
Qed.

(** X17. A generation that is accepted replaces what the studio showed:
    afterwards the loading flag is down and either there is a picture, a
    data URI, and no error, or there is no picture and one error, the
    first text when the call returned [null] and the second when it
    threw. *)
Theorem handleGenerate_sets_one_result
    (generateContent :
       nat -> GenerateContentParameters -> result JsError GenerateContentResponse)
    (st : ImageGeneratorState) :
  truthy (trim (ig_prompt st)) = true ->
  ig_isLoading st = false ->
  let st' := handleGenerate generateContent st in
  let returned :=
    fst (generateImage generateContent (ig_prompt st) (selectedModel st)) in
  ig_isLoading st' = false
  /\ ig_prompt st' = ig_prompt st
  /\ selectedModel st' = selectedModel st
  /\ ((exists url,
         returned = Ok (Some url)
         /\ imageUrl st' = Some url /\ ig_error st' = None
         /\ String.prefix "data:" url = true)
      \/ (returned = Ok None
          /\ imageUrl st' = None /\ ig_error st' = Some generationFailed)
      \/ (exists e,
            returned = Err e
            /\ imageUrl st' = None /\ ig_error st' = Some generationCrashed)).
Proof.
  intros T L st' returned. unfold st', handleGenerate. rewrite T, L.
  cbn [negb orb]. fold returned.
  destruct (generateImage_last_attempt generateContent (ig_prompt st)
              (selectedModel st)) as [k [_ [E _]]].
  assert (R : returned
              = outcomeOf
                  (generateContent k
                     (imageRequest (ig_prompt st) (selectedModel st))))
    by (unfold returned; now rewrite E).
  destruct returned as [[url|] | e] eqn:Ret.
  - unfold outcomeOf in R.
    destruct (generateContent k _) as [r | e]; [|discriminate].
    injection R as R. symmetry in R.
    rewrite imageOfResponse_firstParts in R.
    apply firstInlineImage_data_uri in R. destruct R as [R1 R2].
    cbn [truthy_opt]. rewrite R1. simpl.
    repeat split. left. exists url. now repeat split.
  - simpl. repeat split. right. left. now repeat split.
  - simpl. repeat split. right. right. exists e. now repeat split.
Qed.

(** ** The further properties on the scenarios *)

Lemma handleSendMessage_refuses_witness :
  isBlank (input blankState) = true
  /\ handleSendMessage (clockAt 5) blankState = blankState.
Proof.
  split; [reflexivity|].
  exact (@handleSendMessage_refuses (clockAt 5) blankState
           (or_introl (conj eq_refl eq_refl))).
Defined.

Lemma handleSendMessage_resets_composer_witness :
  input (handleSendMessage (clockAt 1000) (helloState brokenChat)) = ""
  /\ App.attachments (handleSendMessage (clockAt 1000) (helloState brokenChat)) = []
  /\ isLoading (handleSendMessage (clockAt 1000) (helloState brokenChat)) = false.
Proof.
  exact (@handleSendMessage_resets_composer (clockAt 1000)
           (helloState brokenChat) brokenChat eq_refl eq_refl).
Defined.

Lemma handleSendMessage_keeps_history_witness :
  getCurrentMessages (handleSendMessage (clockAt 1000) (helloState helloChat))
  = [mkMessage "1000" USER "hello" 1000 None (Some [pngAttachment]);
     mkMessage "1001" MODEL "Hi there" 1001 None None].
Proof.
  assert (U : toString (now1 (clockAt 1000)) <> aiPlaceholderId (clockAt 1000))
    by (intros H; discriminate H).
  exact (@handleSendMessage_keeps_history (clockAt 1000) (helloState helloChat)
           helloChat eq_refl eq_refl (Forall_nil _) U).
Defined.

(** The earlier answer, which has the identifier of the new placeholder,
    is overwritten as well. *)
Lemma failure_marks_every_match_witness :
  map content (getCurrentMessages (handleSendMessage (clockAt 1000) collidingState))
  = [failureText; "again"; failureText]
  /\ Forall (fun m => id m = aiPlaceholderId (clockAt 1000) ->
                      content m = failureText /\ isError m = Some true)
       (getCurrentMessages (handleSendMessage (clockAt 1000) collidingState)).
Proof.
  split; [reflexivity|].
  exact (@failure_marks_every_match (clockAt 1000) collidingState failingChat
           eq_refl eq_refl eq_refl).
Defined.

(** An answer without text: the placeholder still shows as thinking. *)
Lemma empty_answer_keeps_thinking_witness :
  isLoading (handleSendMessage (clockAt 1000) (helloState idleChat)) = false
  /\ exists init p,
       getCurrentMessages (handleSendMessage (clockAt 1000) (helloState idleChat))
       = (init ++ [p])%list
       /\ isThinking p = true.
Proof.
  exact (@empty_answer_keeps_thinking (clockAt 1000) (helloState idleChat)
           idleChat eq_refl eq_refl).
Defined.

Lemma binary_file_is_sent_inline_witness :
  exists att,
    attachmentOfFile pngFile pngContents = Some att
    /\ isInline att = true
    /\ messagePayload (fst (routeAttachments "hello" [att]))
         (snd (routeAttachments "hello" [att]))
       = PayloadParts
           [mkPart (Some (mkBlob (Some "AAAA") (Some "image/png"))) None;
            textPart "hello"].
Proof.
  exact (@binary_file_is_sent_inline pngFile pngContents "AAAA" "hello"
           eq_refl eq_refl eq_refl eq_refl).
Defined.

Lemma text_file_joins_prompt_witness :
  textBranch notesFile = true
  /\ exists att,
       attachmentOfFile notesFile notesContents = Some att
       /\ isInline att = false
       /\ messagePayload (fst (routeAttachments "see" [att]))
            (snd (routeAttachments "see" [att]))
          = PayloadString
              ("see" ++ LF ++ LF ++ "[FILE_CONTENT: notes.md]" ++ LF ++ "# hi").
Proof.
  split; [reflexivity|].
  exact (@text_file_joins_prompt notesFile notesContents "# hi" "see"
           eq_refl eq_refl eq_refl).
Defined.

Lemma unreadable_member_drops_archive_witness :
  attachmentOfFile siteFile (mkContents None None (Ok brokenArchive)) = None.
Proof.
  exact (@unreadable_member_drops_archive siteFile
           (mkContents None None (Ok brokenArchive)) brokenArchive
           ("b.txt", mkZipEntry false (Err (mkError None None (Some "corrupt"))))
           (mkError None None (Some "corrupt"))
           eq_refl eq_refl (or_intror (or_introl eq_refl)) eq_refl).
Defined.

Lemma generateVeoVideo_waits_before_each_poll_witness :
  exists asked,
    [CallGenerateVideos (videoRequest "a cat" ratio_16_9);
     SetTimeout 5000; CallGetVideosOperation (mkOperation None None);
     SetTimeout 5000; CallGetVideosOperation pendingOperation;
     SetTimeout 5000; CallGetVideosOperation pendingOperation;
     SetTimeout 5000; CallGetVideosOperation pendingOperation]
    = (CallGenerateVideos (videoRequest "a cat" ratio_16_9)
         :: flat_map (fun o => [SetTimeout 5000; CallGetVideosOperation o]) asked)
    /\ Forall (fun o => isDone o = false) asked
    /\ exists submitted answers,
         submitVideo (videoRequest "a cat" ratio_16_9) = Ok submitted
         /\ pollsReturn fourthPollDone 0 submitted answers
         /\ asked = removelast (submitted :: answers)
         /\ isDone (last answers submitted) = true
         /\ Some "https://v/1?alt=media&key=KEY"
            = videoLink (mkEnv (Some "KEY")) (last answers submitted).
Proof.
  destruct (@generateVeoVideo_waits_before_each_poll submitVideo fourthPollDone 4
              (mkEnv (Some "KEY")) "a cat" ratio_16_9 _ _ eq_refl)
    as [asked [L [F R]]].
  exists asked. split; [exact L|]. split; [exact F|].
  exact (R _ eq_refl).
Defined.

Lemma poll_failure_is_not_retried_witness :
  generateVeoVideo submitVideo secondPollFails 2 (mkEnv None) "a cat" ratio_9_16
  = Some (Err (mkError None (Some 503%Z) (Some "unavailable")),
          [CallGenerateVideos (videoRequest "a cat" ratio_9_16);
           SetTimeout 5000; CallGetVideosOperation (mkOperation None None);
           SetTimeout 5000; CallGetVideosOperation pendingOperation]).
Proof.
  assert (P : Forall (fun o => isDone o = false) [pendingOperation])
    by (repeat constructor).
  exact (@poll_failure_is_not_retried submitVideo secondPollFails (mkEnv None)
           "a cat" ratio_9_16 (mkOperation None None) [pendingOperation]
           (mkError None (Some 503%Z) (Some "unavailable")) 2
           eq_refl eq_refl P (conj eq_refl I) eq_refl (le_n 2)).
Defined.

(** A quota error, then a picture: the older picture is replaced. *)
Lemma handleGenerate_sets_one_result_witness :
  imageUrl (handleGenerate secondTry studioState)
  = Some "data:image/png;base64,QUJD"
  /\ ig_error (handleGenerate secondTry studioState) = None
  /\ ig_isLoading (handleGenerate secondTry studioState) = false.
Proof.
  assert (T := @handleGenerate_sets_one_result secondTry studioState
                 eq_refl eq_refl).
  split; [reflexivity|]. split; [reflexivity|].
  exact (proj1 T).
Defined.

(** A send in the code lane two milliseconds after a send in the chat
    lane. *)
Lemma handleSendMessage_ids_increase_witness :
  map id (getCurrentMessages (handleSendMessage (clockAt 1002) codeLaneState))
  = ["1002"; "1003"]
  /\ map id (otherMessages (handleSendMessage (clockAt 1002) codeLaneState))
     = ["1000"; "1001"]
  /\ NoDup (map id (getCurrentMessages
                      (handleSendMessage (clockAt 1002) codeLaneState))
              ++ map id (otherMessages
                           (handleSendMessage (clockAt 1002) codeLaneState))).
Proof.
  assert (S : StronglySorted Z.lt []) by constructor.
  assert (N : NoDup ([] ++ [1000%Z; 1001%Z])%list).
  { simpl. repeat constructor; simpl; intuition lia. }
  assert (F : Forall (fun n => (n < now1 (clockAt 1002))%Z)
                ([] ++ [1000%Z; 1001%Z])%list)
    by (repeat constructor; simpl; lia).
  assert (L : (now1 (clockAt 1002) <= now3 (clockAt 1002))%Z)
    by (simpl; lia).
  assert (T := @handleSendMessage_ids_increase (clockAt 1002) codeLaneState
                 helloChat [] [1000%Z; 1001%Z]
                 eq_refl eq_refl eq_refl eq_refl S N F L).
  cbv zeta in T. destruct T as [E [O [_ [D _]]]].
  split; [exact E|]. split; [exact O | exact D].
Defined.

(** Two data URLs, a picture and a document, sent with a message. *)
Lemma sendMessageStream_sends_data_urls_witness :
  sendMessageStream helloChat "see"
    [mkInline "data:image/png;base64,AAAA" "image/png";
     mkInline "data:application/pdf;base64,JVBERg==" "application/pdf"]
  = chat_sendMessageStream helloChat
      (PayloadParts
         [mkPart (Some (mkBlob (Some "AAAA") (Some "image/png"))) None;
          mkPart (Some (mkBlob (Some "JVBERg==") (Some "application/pdf"))) None;
          mkPart None (Some "see")]).
Proof.
  assert (N : [mkDataUrl "data:image/png;base64" "AAAA" "image/png";
               mkDataUrl "data:application/pdf;base64" "JVBERg=="
                 "application/pdf"] <> [])
    by (intros X; discriminate X).
  assert (F : Forall (fun d => dataUrlOk d = true)
                [mkDataUrl "data:image/png;base64" "AAAA" "image/png";
                 mkDataUrl "data:application/pdf;base64" "JVBERg=="
                   "application/pdf"])
    by (repeat constructor).
  exact (@sendMessageStream_sends_data_urls helloChat "see" _ N F).
Defined.

(** A picture, a note and a document attached to one message: the
    session receives the picture and the document as inline parts and
    the note in the text. *)
Lemma attachments_take_one_path_witness :
  sentBy helloChat mixedState
  = chat_sendMessageStream helloChat
      (PayloadParts
         [inlinePartOf pngAttachment;
          mkPart (Some (mkBlob (Some "JVBERg==") (Some "application/pdf"))) None;
          mkPart None (Some ("see" ++ LF ++ LF ++ "[FILE_CONTENT: n.txt]x"))])
  /\ handleSendMessage (clockAt 1000) mixedState
     = setIsLoading false
         (tryExchange V_chat (aiPlaceholderId (clockAt 1000))
            (sentBy helloChat mixedState)
            (optimisticUpdate (clockAt 1000) mixedState)).
Proof.
  assert (T := @attachments_take_one_path (clockAt 1000) mixedState helloChat
                 eq_refl eq_refl).
  cbv zeta in T. destruct T as [E [H _]]. split.
  - exact E.
  - rewrite E. exact H.
Defined.
